(** * RainClassroom assistant: the answering routine of [Scripts/ai.py]

    A shallow embedding of [get_ai_config], [get_openai_client] and
    [ai_calc], and the properties of the answer list that [ai_calc]
    returns.

    Python values are modelled as follows.
    - [str] is a sequence of Unicode code points ([list N]); literals of
      the source are written as UTF-8 text and decoded by [u].
    - a [dict] with string keys and string values is a [gmap str str];
      [d[k]] on a missing key raises [KeyError].
    - the console is a list of printed lines, threaded through the
      computation; exceptions are values of type [exn] (the subclasses of
      Python's [Exception]).
    - the configuration file, the OpenAI client library, the remote model
      and the random number generator form the [world] the script runs
      in.
    - inputs have the shapes the docstrings give: [options] is a list of
      dicts of strings, and the ["ai_config"] entry of the configuration,
      when there is one, is an object of strings. *)

From Stdlib Require Import ZArith NArith QArith List Lia Ascii String.
From stdpp Require Import base decidable option list countable gmap.

Set Default Proof Using "Type".

(** ** Python strings *)

Definition str : Type := list N.

Module Utf8.

Definition byte_of (a : ascii) : N := N_of_ascii a.

(** Payload of a continuation byte [10xxxxxx]. *)
Definition cont (b : N) : N := N.land b 63.

(** Decoding of a well-formed UTF-8 byte sequence into code points. *)
Fixpoint decode (bs : list N) : list N :=
  match bs with
  | [] => []
  | b :: r1 =>
      if (b <? 128)%N then b :: decode r1
      else if (b <? 224)%N then
        match r1 with
        | b1 :: r2 => (N.shiftl (N.land b 31) 6 + cont b1)%N :: decode r2
        | [] => []
        end
      else if (b <? 240)%N then
        match r1 with
        | b1 :: b2 :: r3 =>
            (N.shiftl (N.land b 15) 12 + N.shiftl (cont b1) 6 + cont b2)%N
              :: decode r3
        | _ => []
        end
      else
        match r1 with
        | b1 :: b2 :: b3 :: r4 =>
            (N.shiftl (N.land b 7) 18 + N.shiftl (cont b1) 12
             + N.shiftl (cont b2) 6 + cont b3)%N :: decode r4
        | _ => []
        end
  end.

End Utf8.

(** [u "..."] is the Python string written [ "..." ] in the source. *)
Definition u (s : string) : str :=
  Utf8.decode (map Utf8.byte_of (list_ascii_of_string s)).
Arguments u s%_string.

(** Code points that occur as one-character literals in [ai_calc]. *)
Definition SPACE : N := 32.          (* ' ' *)
Definition COMMA : N := 44.          (* ',' *)
Definition SEMICOLON : N := 59.      (* ';' *)
Definition IDEO_COMMA : N := 12289.  (* U+3001 *)
Definition FULL_COMMA : N := 65292.  (* U+FF0C *)
Definition FULL_SEMI : N := 65307.   (* U+FF1B *)

(** [str.isspace] on one code point (CPython's [_PyUnicode_IsWhitespace]). *)
Definition isspace (c : N) : bool :=
  ((9 <=? c) && (c <=? 13) || (28 <=? c) && (c <=? 32)
   || (c =? 133) || (c =? 160) || (c =? 5760)
   || (8192 <=? c) && (c <=? 8202)
   || (c =? 8232) || (c =? 8233) || (c =? 8239) || (c =? 8287)
   || (c =? 12288))%N.

Fixpoint lstrip (s : str) : str :=
  match s with
  | [] => []
  | c :: s' => if isspace c then lstrip s' else s
  end.

Definition rstrip (s : str) : str := rev (lstrip (rev s)).

(** [s.strip()] *)
Definition strip (s : str) : str := rstrip (lstrip s).

(** [s.replace(old, new)] for a one-character [old]. *)
Fixpoint replace (old : N) (new : str) (s : str) : str :=
  match s with
  | [] => []
  | c :: s' =>
      if (c =? old)%N then new ++ replace old new s' else c :: replace old new s'
  end.

(** [sep in s] for a one-character [sep]. *)
Definition contains (sep : N) (s : str) : bool :=
  existsb (fun c => (c =? sep)%N) s.

(** [s.split(sep)] for a one-character [sep]: one more piece than there
    are separators, empty pieces kept. *)
Fixpoint split (sep : N) (s : str) : list str :=
  match s with
  | [] => [[]]
  | c :: s' =>
      if (c =? sep)%N then [] :: split sep s'
      else match split sep s' with
           | w :: ws => (c :: w) :: ws
           | [] => [[c]]
           end
  end.

(** ** Exceptions and the console *)

Inductive exn_class : Type :=
  | KeyError
  | IndexError
  | AttributeError
  | OtherException (name : str).

(** An exception object: its class and the text [str(e)] prints. *)
Record exn : Type := Exn { exn_cls : exn_class; exn_str : str }.

Inductive result (A : Type) : Type :=
  | Ok (a : A)
  | Raise (e : exn).
Arguments Ok {A} a.
Arguments Raise {A} e.

(** The lines printed so far, oldest first. *)
Definition console : Type := list str.

(** A computation that prints and may raise. *)
Definition M (A : Type) : Type := console -> result A * console.

Definition ret {A} (a : A) : M A := fun out => (Ok a, out).

Definition bind {A B} (m : M A) (k : A -> M B) : M B :=
  fun out =>
    match m out with
    | (Ok a, out') => k a out'
    | (Raise e, out') => (Raise e, out')
    end.

(** A step that does not print. *)
Definition lift {A} (r : result A) : M A := fun out => (r, out).

Definition print (line : str) : M unit := fun out => (Ok tt, out ++ [line]).

(** [try: body except Exception as e: handler(e)] *)
Definition try_except {A} (body : M A) (handler : exn -> M A) : M A :=
  fun out =>
    match body out with
    | (Ok a, out') => (Ok a, out')
    | (Raise e, out') => handler e out'
    end.

Declare Scope py_scope.
Delimit Scope py_scope with py.
Notation "x <~ m ;; k" := (bind m (fun x => k))
  (at level 100, m at next level, right associativity) : py_scope.
Notation "m ;;; k" := (bind m (fun _ => k))
  (at level 100, right associativity) : py_scope.
Open Scope py_scope.

(** [d[k]] *)
Definition getitem (d : gmap str str) (k : str) : result str :=
  match d !! k with
  | Some v => Ok v
  | None => Raise (Exn KeyError (u "'" ++ k ++ u "'"))
  end.

(** [d.get(k, default)] *)
Definition dict_get (d : gmap str str) (k : str) (dflt : str) : str :=
  match d !! k with
  | Some v => v
  | None => dflt
  end.

(** [l[0]] *)
Definition first_item {A} (l : list A) : result A :=
  match l with
  | x :: _ => Ok x
  | [] => Raise (Exn IndexError (u "list index out of range"))
  end.

(** ** The world outside the script *)

Record client : Type := Client { client_api_key : str; client_base_url : str }.

Record message : Type := Message { role : str; content : str }.

Record request : Type := Request {
  model : str;
  messages : list message;
  temperature : Q;
  stream : bool
}.

(** [response.choices[i].message.content]; the content may be [None]. *)
Record completion_message : Type := { message_content : option str }.
Record choice : Type := { choice_message : completion_message }.
Record response : Type := { choices : list choice }.

Record world : Type := World {
  (** [json.load] of the file at [get_config_path()] *)
  load_config : result (gmap str (gmap str str));
  (** the constructor [OpenAI(api_key=..., base_url=...)] *)
  OpenAI : str -> str -> result client;
  (** [client.chat.completions.create(...)] *)
  chat_completions_create : client -> request -> result response;
  (** the number the generator yields for [random.choice] *)
  random_draw : nat
}.

(** [random.choice(seq)]: the element at a drawn position below
    [len(seq)]; an empty sequence raises [IndexError]. *)
Definition random_choice (w : world) (seq : list str) : result str :=
  match seq !! (random_draw w mod length seq) with
  | Some x => Ok x
  | None => Raise (Exn IndexError (u "Cannot choose from an empty sequence"))
  end.

(** ** [get_ai_config] and [get_openai_client] *)

Definition default_ai_config : gmap str str :=
  {[ u "api_key" := u ""; u "base_url" := u "https://api.deepseek.com" ]}.

Definition get_ai_config (w : world) : M (gmap str str) :=
  try_except
    (config <~ lift (load_config w) ;;
     match config !! u "ai_config" with
     | None => ret default_ai_config
     | Some ai_config => ret ai_config
     end)
    (fun e =>
       print (u "获取AI配置出错: " ++ exn_str e) ;;;
       ret default_ai_config).

Definition get_openai_client (w : world) : M client :=
  ai_config <~ get_ai_config w ;;
  let api_key := dict_get ai_config (u "api_key") (u "") in
  let base_url := dict_get ai_config (u "base_url") (u "https://api.deepseek.com") in
  (match api_key with
   | [] => print (u "未设置API密钥，请在配置中设置")
   | _ => ret tt
   end) ;;;
  lift (OpenAI w api_key base_url).

(** ** [ai_calc] *)

(** One option of a question: a dict with the fields ['key'] and
    ['value']. *)
Abbreviation option_dict := (gmap str str).

(** The loop that builds [options_text], one "key: value" line per
    option; [options_text] is the text accumulated so far. *)
Fixpoint render_options (options : list option_dict) (options_text : str)
  : result str :=
  match options with
  | [] => Ok options_text
  | option :: rest =>
      match getitem option (u "key") with
      | Raise e => Raise e
      | Ok k =>
          match getitem option (u "value") with
          | Raise e => Raise e
          | Ok v =>
              render_options rest (options_text ++ k ++ u ": " ++ v ++ u "
")
          end
      end
  end.

Definition instruction_for (problem_type : Z) : str :=
  if (problem_type =? 1)%Z then
    u "这是一道单选题，请选择一个最合适的选项。只需回答选项字母，如'A'。"
  else if (problem_type =? 2)%Z then
    u "这是一道多选题，请选择所有正确的选项（至少两个）。只需回答选项字母，如'A,C,D'。至少有两个选项是正确的，并且宁可少选（如只选最有可能的两项）也不要多选错误选项（如选了三项但有一项是错误的），因为错选或者多选不给分，少选却有一半的分数。"
  else if (problem_type =? 3)%Z then
    u "这是一道投票题，类似单选题，请选择一个最合适的选项。只需回答选项字母，如'A'。"
  else
    u "请分析这个问题，并选择正确的选项。只需回答选项字母。".

(** Lines 44-67: everything [ai_calc] does before its [try]. *)
Definition build_prompt (problem_type : Z) (body : str)
    (options : list option_dict) : result str :=
  match render_options options (u "") with
  | Raise e => Raise e
  | Ok options_text =>
      let instruction := instruction_for problem_type in
      Ok (u "请回答以下题目，" ++ instruction ++ u "
    
题目：" ++ body ++ u "

选项：
" ++ options_text ++ u "

请直接回答选项字母，不要有任何解释或其他文字。例如：A 或 A,B,C")
  end.

Definition request_for (prompt : str) : request :=
  {| model := u "deepseek-chat";
     messages :=
       [ Message (u "system")
           (u "你是一个专业的答题助手，只回答选项字母，不做任何解释。");
         Message (u "user") prompt ];
     temperature := (15 # 100)%Q; (* the literal 0.15 *)
     stream := false |}.

(** Lines 71-85, up to [.content]: obtain the client, call the model,
    and read the text of the first choice.  Calling [.strip()] on a
    [None] content raises [AttributeError]. *)
Definition ask_model (w : world) (prompt : str) : M str :=
  client <~ get_openai_client w ;;
  response <~ lift (chat_completions_create w client (request_for prompt)) ;;
  choice0 <~ lift (first_item (choices response)) ;;
  match message_content (choice_message choice0) with
  | Some text => ret text
  | None =>
      lift (Raise (Exn AttributeError
                     (u "'NoneType' object has no attribute 'strip'")))
  end.

(** Lines 85-89: [strip], then removal of spaces and unification of the
    comma-like punctuation. *)
Definition normalize (text : str) : str :=
  replace FULL_SEMI [COMMA]
    (replace SEMICOLON [COMMA]
       (replace IDEO_COMMA [COMMA]
          (replace FULL_COMMA [COMMA]
             (replace SPACE [] (strip text))))).

(** Lines 92-95. *)
Definition tokenize (answer_text : str) : list str :=
  if contains COMMA answer_text then split COMMA answer_text
  else [answer_text].

(** Line 98: [[opt['key'] for opt in options]]. *)
Fixpoint option_keys (options : list option_dict) : result (list str) :=
  match options with
  | [] => Ok []
  | opt :: rest =>
      match getitem opt (u "key") with
      | Raise e => Raise e
      | Ok k =>
          match option_keys rest with
          | Raise e => Raise e
          | Ok ks => Ok (k :: ks)
          end
      end
  end.

(** Line 99: [[ans for ans in answers if ans in valid_options]]. *)
Definition keep_valid (valid_options answers : list str) : list str :=
  filter (fun ans => ans ∈ valid_options) answers.

(** Line 105: [[opt for opt in valid_options if opt not in answers]]. *)
Definition remaining_options (valid_options answers : list str) : list str :=
  filter (fun opt => opt ∉ answers) valid_options.

(** Lines 101-107: the backfill for multiple-choice questions. *)
Definition backfill (w : world) (problem_type : Z)
    (valid_options answers : list str) : result (list str) :=
  if (problem_type =? 2)%Z && (length answers <? 2) && (2 <=? length valid_options)
  then
    match remaining_options valid_options answers with
    | [] => Ok answers
    | remaining =>
        match random_choice w remaining with
        | Raise e => Raise e
        | Ok extra => Ok (answers ++ [extra])
        end
    end
  else Ok answers.

(** Lines 85-109: from the text of the reply to the returned list. *)
Definition parse_answer (w : world) (problem_type : Z)
    (options : list option_dict) (text : str) : result (list str) :=
  let answer_text := normalize text in
  let answers := tokenize answer_text in
  match option_keys options with
  | Raise e => Raise e
  | Ok valid_options =>
      let answers := keep_valid valid_options answers in
      backfill w problem_type valid_options answers
  end.

(** Lines 70-109: the body of the [try]. *)
Definition guarded_region (w : world) (problem_type : Z)
    (options : list option_dict) (prompt : str) : M (list str) :=
  text <~ ask_model w prompt ;;
  lift (parse_answer w problem_type options text).

Definition ai_calc (w : world) (problem_type : Z) (body : str)
    (options : list option_dict) : M (list str) :=
  prompt <~ lift (build_prompt problem_type body options) ;;
  try_except
    (guarded_region w problem_type options prompt)
    (fun e =>
       print (u "调用AI模型出错: " ++ exn_str e) ;;;
       ret []).

(** ** The questions of the script's self-test, and mocked worlds *)

Definition mk_option (k v : str) : gmap str str :=
  {[ u "key" := k; u "value" := v ]}.

Definition options_multi : list (gmap str str) :=
  [ mk_option (u "A") (u "细胞学说");
    mk_option (u "B") (u "自然辩证法");
    mk_option (u "C") (u "分子进化学说");
    mk_option (u "D") (u "日心说");
    mk_option (u "E") (u "生物进化论");
    mk_option (u "F") (u "能量守恒与转化定律") ].

Definition options_single : list (gmap str str) :=
  [ mk_option (u "A") (u "正确"); mk_option (u "B") (u "错误") ].

Definition response_with (text : option str) : response :=
  {| choices := [ {| choice_message := {| message_content := text |} |} ] |}.

(** A world with no [ai_config] entry in its configuration, a client
    constructor that succeeds, a model whose call ends as [reply] says, and
    [draw] as the random number. *)
Definition mock_world (reply : result (option str)) (draw : nat) : world :=
  {| load_config := Ok ∅;
     OpenAI := fun api_key base_url => Ok (Client api_key base_url);
     chat_completions_create := fun _ _ =>
       match reply with
       | Ok text => Ok (response_with text)
       | Raise e => Raise e
       end;
     random_draw := draw |}.

Definition replying (text : string) (draw : nat) : world :=
  mock_world (Ok (Some (u text))) draw.
Arguments replying text%_string draw%_nat.

(** The exception of a network call that cannot reach the service. *)
Definition connection_error : exn :=
  Exn (OtherException (u "APIConnectionError")) (u "Connection error.").

(** The prompt of a successful [build_prompt]. *)
Definition prompt_of (r : result str) : str :=
  match r with Ok prompt => prompt | Raise _ => [] end.

(** ** Notions used to state the properties *)

(** [k] is the key of one of the question's options. *)
Definition option_key (options : list (gmap str str)) (k : str) : Prop :=
  exists opt, opt ∈ options /\ opt !! u "key" = Some k.

(** The text the model replies with in the run of [ai_calc] that starts
    with console [out], if the run gets that far. *)
Definition reply_text (w : world) (problem_type : Z) (body : str)
    (options : list (gmap str str)) (out : console) : option str :=
  match build_prompt problem_type body options with
  | Raise _ => None
  | Ok prompt =>
      match ask_model w prompt out with
      | (Ok text, _) => Some text
      | (Raise _, _) => None
      end
  end.

(** The line [ai_calc] prints in its handler. *)
Definition diagnostic (e : exn) : str := u "调用AI模型出错: " ++ exn_str e.

(** The same world with another random number. *)
Definition with_draw (w : world) (draw : nat) : world :=
  {| load_config := load_config w;
     OpenAI := OpenAI w;
     chat_completions_create := chat_completions_create w;
     random_draw := draw |}.

(** The ways a step of the guarded region can fail, with the exception
    raised and the console at that moment. *)
Inductive step_fails (w : world) (problem_type : Z)
    (options : list (gmap str str)) (prompt : str) (out : console)
  : exn -> console -> Prop :=
  | client_construction_fails e out1 :
      get_openai_client w out = (Raise e, out1) ->
      step_fails w problem_type options prompt out e out1
  | network_call_fails cl e out1 :
      get_openai_client w out = (Ok cl, out1) ->
      chat_completions_create w cl (request_for prompt) = Raise e ->
      step_fails w problem_type options prompt out e out1
  | reply_has_no_choice cl resp out1 :
      get_openai_client w out = (Ok cl, out1) ->
      chat_completions_create w cl (request_for prompt) = Ok resp ->
      choices resp = [] ->
      step_fails w problem_type options prompt out
        (Exn IndexError (u "list index out of range")) out1
  | reply_has_no_content cl resp c cs out1 :
      get_openai_client w out = (Ok cl, out1) ->
      chat_completions_create w cl (request_for prompt) = Ok resp ->
      choices resp = c :: cs ->
      message_content (choice_message c) = None ->
      step_fails w problem_type options prompt out
        (Exn AttributeError (u "'NoneType' object has no attribute 'strip'"))
        out1
  | parsing_fails text e out1 :
      ask_model w prompt out = (Ok text, out1) ->
      parse_answer w problem_type options text = Raise e ->
      step_fails w problem_type options prompt out e out1.

(** Whether lines 102 and 106 both let the backfill run. *)
Definition backfill_applies (problem_type : Z)
    (valid_options answers : list str) : Prop :=
  problem_type = 2%Z /\ length answers < 2 /\ 2 <= length valid_options /\
  remaining_options valid_options answers <> [].

(** The normalization as the specification words it: whitespace stripped,
    spaces dropped, and each of the four comma-like characters turned into
    the one delimiter [','], in a single pass over the text. *)
Definition unify_char (c : N) : str :=
  if (c =? SPACE)%N then []
  else if (c =? FULL_COMMA)%N || (c =? IDEO_COMMA)%N
          || (c =? SEMICOLON)%N || (c =? FULL_SEMI)%N then [COMMA]
  else [c].

Definition normalize_in_one_pass (text : str) : str :=
  flat_map unify_char (strip text).

(** A token occurs at most once in a list of tokens. *)
Definition at_most_once (k : str) (tokens : list str) : Prop :=
  forall i j, tokens !! i = Some k -> tokens !! j = Some k -> i = j.

(** ** Further notions: configuration, console lines, joining *)

(** The line [get_ai_config] prints in its handler. *)
Definition config_error_line (e : exn) : str := u "获取AI配置出错: " ++ exn_str e.

(** The line [get_openai_client] prints when the API key is empty. *)
Definition missing_key_warning : str := u "未设置API密钥，请在配置中设置".

(** A configuration file whose ["ai_config"] entry is [ai_config]. *)
Definition config_with (ai_config : gmap str str) : gmap str (gmap str str) :=
  {[ u "ai_config" := ai_config ]}.

(** A world like [mock_world] but with the given outcome of reading the
    configuration file. *)
Definition world_with_config (cfg : result (gmap str (gmap str str)))
    (reply : result (option str)) (draw : nat) : world :=
  {| load_config := cfg;
     OpenAI := OpenAI (mock_world reply draw);
     chat_completions_create := chat_completions_create (mock_world reply draw);
     random_draw := draw |}.

(** A world whose client constructor raises [e]. *)
Definition world_without_client (e : exn) : world :=
  {| load_config := Ok ∅;
     OpenAI := fun _ _ => Raise e;
     chat_completions_create := fun _ _ => Ok (response_with None);
     random_draw := 0 |}.

(** [sep.join(pieces)] for a one-character [sep]: the inverse of [split]. *)
Fixpoint join (sep : N) (pieces : list str) : str :=
  match pieces with
  | [] => []
  | piece :: rest =>
      match rest with
      | [] => piece
      | _ :: _ => piece ++ sep :: join sep rest
      end
  end.

(** The characters the normalization removes or replaces. *)
Definition rewritten_char (c : N) : Prop :=
  c = SPACE \/ c = FULL_COMMA \/ c = IDEO_COMMA \/ c = SEMICOLON \/ c = FULL_SEMI.

(** At most one position of [tokens] holds an option key. *)
Definition at_most_one_valid_token (options : list (gmap str str))
    (tokens : list str) : Prop :=
  forall i j ti tj,
    tokens !! i = Some ti -> tokens !! j = Some tj ->
    option_key options ti -> option_key options tj -> i = j.

(** What stripping means: [core] is [text] without a leading and a
    trailing run of whitespace, and [core] itself neither starts nor ends
    with whitespace. *)
Definition stripped_of (text core : str) : Prop :=
  exists pre post,
    text = pre ++ core ++ post /\
    Forall (fun c => isspace c = true) pre /\
    Forall (fun c => isspace c = true) post /\
    (forall c, head core = Some c -> isspace c = false) /\
    (forall c, last core = Some c -> isspace c = false).

(** What splitting on [','] means: the pieces contain no comma and give
    [s] back when joined with commas. *)
Definition split_at_commas (s : str) (pieces : list str) : Prop :=
  pieces <> [] /\
  Forall (fun piece => COMMA ∉ piece) pieces /\
  join COMMA pieces = s.

(** A reply that needs every step of the normalization: a tab, spaces,
    the four comma-like characters and a final newline. *)
Definition messy_reply : str := [9%N] ++ u "B， C、D;E；F " ++ [10%N].

(** The "key: value" line of one option, as the loop of [ai_calc] writes
    it. *)
Definition option_line (kv : str * str) : str :=
  kv.1 ++ u ": " ++ kv.2 ++ u "
".

(** [kv] holds the ['key'] and ['value'] fields of [opt]. *)
Definition fields_of (opt : gmap str str) (kv : str * str) : Prop :=
  opt !! u "key" = Some kv.1 /\ opt !! u "value" = Some kv.2.

(** * Properties *)

(** ** The string operations on examples *)

Example u_ascii : u "A,C" = [65; 44; 67]%N.
Proof. reflexivity. Qed.

Example u_cjk : u "，、；" = [FULL_COMMA; IDEO_COMMA; FULL_SEMI].
Proof. reflexivity. Qed.

Example split_example : split COMMA (u "A,,C,") = [u "A"; u ""; u "C"; u ""].
Proof. reflexivity. Qed.

Example strip_example : strip (u "  A, B
") = u "A, B".
Proof. reflexivity. Qed.


(** ** Running [ai_calc] *)

Lemma ai_calc_unfold w problem_type body options out :
  ai_calc w problem_type body options out =
  match build_prompt problem_type body options with
  | Raise e => (Raise e, out)
  | Ok prompt =>
      match ask_model w prompt out with
      | (Raise e, out1) => (Ok [], out1 ++ [diagnostic e])
      | (Ok text, out1) =>
          match parse_answer w problem_type options text with
          | Raise e => (Ok [], out1 ++ [diagnostic e])
          | Ok answers => (Ok answers, out1)
          end
      end
  end.
Proof.
  unfold ai_calc, guarded_region, bind, try_except, lift.
  destruct (build_prompt problem_type body options) as [prompt|e]; [|reflexivity].
  destruct (ask_model w prompt out) as [[text|e] out1]; [|reflexivity].
  destruct (parse_answer w problem_type options text); reflexivity.
Qed.

Lemma ask_model_unfold w prompt out :
  ask_model w prompt out =
  match get_openai_client w out with
  | (Raise e, out1) => (Raise e, out1)
  | (Ok cl, out1) =>
      match chat_completions_create w cl (request_for prompt) with
      | Raise e => (Raise e, out1)
      | Ok resp =>
          match choices resp with
          | [] => (Raise (Exn IndexError (u "list index out of range")), out1)
          | c :: _ =>
              match message_content (choice_message c) with
              | Some text => (Ok text, out1)
              | None =>
                  (Raise (Exn AttributeError
                            (u "'NoneType' object has no attribute 'strip'")),
                   out1)
              end
          end
      end
  end.
Proof.
  unfold ask_model, bind, lift, first_item.
  destruct (get_openai_client w out) as [[cl|e] out1]; [|reflexivity].
  destruct (chat_completions_create w cl (request_for prompt)) as [resp|e];
    [|reflexivity].
  destruct (choices resp) as [|c cs]; [reflexivity|].
  destruct (message_content (choice_message c)); reflexivity.
Qed.

Lemma guarded_region_unfold w problem_type options prompt out :
  guarded_region w problem_type options prompt out =
  match ask_model w prompt out with
  | (Raise e, out1) => (Raise e, out1)
  | (Ok text, out1) => (parse_answer w problem_type options text, out1)
  end.
Proof.
  unfold guarded_region, bind, lift.
  by destruct (ask_model w prompt out) as [[text|e] out1].
Qed.

(** [step_fails] lists exactly the ways the body of the [try] raises. *)
Lemma step_fails_iff w problem_type options prompt out e out1 :
  step_fails w problem_type options prompt out e out1 <->
  guarded_region w problem_type options prompt out = (Raise e, out1).
Proof.
  rewrite guarded_region_unfold. split.
  - intros [e' out' Hc | cl e' out' Hc Hcall | cl resp out' Hc Hcall Hch
      | cl resp c cs out' Hc Hcall Hch Hnone | text e' out' Hask Hparse].
    + by rewrite ask_model_unfold, Hc.
    + by rewrite ask_model_unfold, Hc, Hcall.
    + by rewrite ask_model_unfold, Hc, Hcall, Hch.
    + by rewrite ask_model_unfold, Hc, Hcall, Hch, Hnone.
    + by rewrite Hask, Hparse.
  - destruct (ask_model w prompt out) as [[text|e'] out'] eqn:Hask.
    + intros [= Hparse <-]. by eapply parsing_fails.
    + intros [= <- <-]. rewrite ask_model_unfold in Hask.
      destruct (get_openai_client w out) as [[cl|e1] out2] eqn:Hc.
      2:{ injection Hask as <- <-. by apply client_construction_fails. }
      destruct (chat_completions_create w cl (request_for prompt))
        as [resp|e2] eqn:Hcall.
      2:{ injection Hask as <- <-. by eapply network_call_fails. }
      destruct (choices resp) as [|c cs] eqn:Hch.
      { injection Hask as <- <-. by eapply reply_has_no_choice. }
      destruct (message_content (choice_message c)) eqn:Hnone; [discriminate|].
      injection Hask as <- <-. by eapply reply_has_no_content.
Qed.

(** Once the prompt is built, [ai_calc] returns a list: no exception of the
    guarded region reaches the caller. *)
Lemma ai_calc_returns_after_prompt w problem_type body options prompt out :
  build_prompt problem_type body options = Ok prompt ->
  exists answers out',
    ai_calc w problem_type body options out = (Ok answers, out').
Proof.
  intros Hp. rewrite ai_calc_unfold, Hp.
  destruct (ask_model w prompt out) as [[text|e] out1]; [|by eexists _, _].
  destruct (parse_answer w problem_type options text); by eexists _, _.
Qed.

(** ** Option keys *)

Lemma getitem_Ok d k v : getitem d k = Ok v <-> d !! k = Some v.
Proof.
  unfold getitem. destruct (d !! k); split; intros H; congruence.
Qed.

Lemma getitem_Raise d k e :
  getitem d k = Raise e -> d !! k = None /\ exn_cls e = KeyError.
Proof.
  unfold getitem. destruct (d !! k); [discriminate|].
  intros [= <-]. split; reflexivity.
Qed.

Lemma option_keys_Forall2 options valid :
  option_keys options = Ok valid ->
  Forall2 (fun opt k => opt !! u "key" = Some k) options valid.
Proof.
  revert valid. induction options as [|opt rest IH]; intros valid H.
  - injection H as <-. constructor.
  - cbn [option_keys] in H.
    destruct (getitem opt (u "key")) as [k|] eqn:Hk; [|discriminate].
    destruct (option_keys rest) as [ks|]; [|discriminate].
    injection H as <-. constructor; [by apply getitem_Ok | by apply IH].
Qed.

Lemma option_keys_length options valid :
  option_keys options = Ok valid -> length valid = length options.
Proof.
  intros H. symmetry. eapply Forall2_length, option_keys_Forall2, H.
Qed.

Lemma option_keys_elem options valid k :
  option_keys options = Ok valid -> (k ∈ valid <-> option_key options k).
Proof.
  intros H. apply option_keys_Forall2 in H. unfold option_key. split.
  - intros Hk. induction H as [|opt k' rest ks Hopt _ IH].
    + by apply elem_of_nil in Hk.
    + apply elem_of_cons in Hk as [->|Hk].
      * exists opt. split; [left|done].
      * destruct (IH Hk) as (o & Ho & Hkey). exists o. split; [by right|done].
  - intros (o & Ho & Hkey). induction H as [|opt k' rest ks Hopt _ IH].
    + by apply elem_of_nil in Ho.
    + apply elem_of_cons in Ho as [->|Ho].
      * assert (k = k') as -> by congruence. left.
      * right. by apply IH.
Qed.

(** Once the prompt has been built, every option has a key, so that the
    list comprehension over the keys cannot raise. *)
Lemma render_options_keys options acc text :
  render_options options acc = Ok text ->
  exists valid, option_keys options = Ok valid.
Proof.
  revert acc. induction options as [|opt rest IH]; intros acc H.
  - by exists [].
  - cbn [render_options option_keys] in *.
    destruct (getitem opt (u "key")) as [k|]; [|discriminate].
    destruct (getitem opt (u "value")) as [v|]; [|discriminate].
    destruct (IH _ H) as [ks ->]. by exists (k :: ks).
Qed.

Lemma build_prompt_keys problem_type body options prompt :
  build_prompt problem_type body options = Ok prompt ->
  exists valid, option_keys options = Ok valid.
Proof.
  unfold build_prompt.
  destruct (render_options options (u "")) as [text|] eqn:H; [|discriminate].
  intros _. eapply render_options_keys, H.
Qed.

Lemma render_options_missing options acc :
  (exists opt, opt ∈ options /\
     (opt !! u "key" = None \/ opt !! u "value" = None)) ->
  exists e, render_options options acc = Raise e /\ exn_cls e = KeyError.
Proof.
  revert acc. induction options as [|opt rest IH]; intros acc (o & Ho & Hmiss).
  - by apply elem_of_nil in Ho.
  - cbn [render_options].
    destruct (getitem opt (u "key")) as [k|e] eqn:Hk.
    2:{ exists e. split; [done|]. by apply getitem_Raise in Hk as [_ ?]. }
    destruct (getitem opt (u "value")) as [v|e] eqn:Hv.
    2:{ exists e. split; [done|]. by apply getitem_Raise in Hv as [_ ?]. }
    apply getitem_Ok in Hk, Hv.
    apply elem_of_cons in Ho as [->|Ho].
    + destruct Hmiss; congruence.
    + apply IH. by exists o.
Qed.

(** ** The backfill *)

Lemma random_choice_elem w seq :
  seq <> [] -> exists x, random_choice w seq = Ok x /\ x ∈ seq.
Proof.
  intros Hne. unfold random_choice.
  assert (random_draw w mod length seq < length seq) as Hlt.
  { apply Nat.mod_upper_bound. destruct seq; [done | simpl; lia]. }
  destruct (lookup_lt_is_Some_2 seq _ Hlt) as [x Hx].
  rewrite Hx. exists x. split; [done|]. eapply list_elem_of_lookup_2, Hx.
Qed.

Lemma random_choice_any w seq x :
  x ∈ seq -> exists draw, random_choice (with_draw w draw) seq = Ok x.
Proof.
  intros [i Hi]%list_elem_of_lookup_1. exists i. unfold random_choice.
  cbn [random_draw with_draw].
  rewrite Nat.mod_small by (eapply lookup_lt_Some, Hi). by rewrite Hi.
Qed.

Lemma backfill_applies_dec problem_type valid_options answers :
  backfill_applies problem_type valid_options answers \/
  ~ backfill_applies problem_type valid_options answers.
Proof.
  unfold backfill_applies.
  destruct (decide (problem_type = 2%Z)); [|tauto].
  destruct (decide (length answers < 2)); [|tauto].
  destruct (decide (2 <= length valid_options)); [|tauto].
  destruct (remaining_options valid_options answers); [tauto|].
  left. done.
Qed.

Lemma backfill_yes w problem_type valid_options answers :
  backfill_applies problem_type valid_options answers ->
  exists extra,
    backfill w problem_type valid_options answers = Ok (answers ++ [extra]) /\
    random_choice w (remaining_options valid_options answers) = Ok extra /\
    extra ∈ remaining_options valid_options answers.
Proof.
  intros (-> & Hlen & Hvalid & Hrem). unfold backfill.
  destruct (random_choice_elem w _ Hrem) as (extra & Hx & Hin).
  exists extra. split; [|done].
  rewrite Z.eqb_refl.
  rewrite (proj2 (Nat.ltb_lt _ _) Hlen), (proj2 (Nat.leb_le _ _) Hvalid).
  cbn [andb].
  destruct (remaining_options valid_options answers); [done|].
  by rewrite Hx.
Qed.

Lemma backfill_no w problem_type valid_options answers :
  ~ backfill_applies problem_type valid_options answers ->
  backfill w problem_type valid_options answers = Ok answers.
Proof.
  intros Hno. unfold backfill.
  destruct (Z.eqb_spec problem_type 2); [|done].
  destruct (Nat.ltb_spec (length answers) 2); [|done].
  destruct (Nat.leb_spec 2 (length valid_options)); [|done].
  cbn [andb].
  destruct (remaining_options valid_options answers) eqn:Hrem; [done|].
  exfalso. apply Hno. unfold backfill_applies. rewrite Hrem. done.
Qed.

Lemma remaining_options_elem valid_options answers k :
  k ∈ remaining_options valid_options answers <->
  k ∈ valid_options /\ k ∉ answers.
Proof. unfold remaining_options. rewrite list_elem_of_filter. tauto. Qed.

Lemma keep_valid_elem valid_options answers k :
  k ∈ keep_valid valid_options answers <-> k ∈ answers /\ k ∈ valid_options.
Proof. unfold keep_valid. rewrite list_elem_of_filter. tauto. Qed.

(** ** From the reply to the returned list *)

Lemma parse_answer_keys w problem_type options text valid_options :
  option_keys options = Ok valid_options ->
  parse_answer w problem_type options text =
  backfill w problem_type valid_options
    (keep_valid valid_options (tokenize (normalize text))).
Proof. intros H. unfold parse_answer. by rewrite H. Qed.

Lemma backfill_total w problem_type valid_options answers :
  exists extra,
    backfill w problem_type valid_options answers = Ok (answers ++ extra).
Proof.
  destruct (backfill_applies_dec problem_type valid_options answers) as [H|H].
  - destruct (backfill_yes w _ _ _ H) as (x & -> & _). by exists [x].
  - rewrite (backfill_no w _ _ _ H). exists []. by rewrite app_nil_r.
Qed.

(** A run in which the model replies returns what the parser makes of the
    reply. *)
Lemma ai_calc_reply w problem_type body options out text :
  reply_text w problem_type body options out = Some text ->
  exists valid_options answers out',
    option_keys options = Ok valid_options /\
    backfill w problem_type valid_options
      (keep_valid valid_options (tokenize (normalize text))) = Ok answers /\
    ai_calc w problem_type body options out = (Ok answers, out').
Proof.
  unfold reply_text. rewrite ai_calc_unfold.
  destruct (build_prompt problem_type body options) as [prompt|] eqn:Hp;
    [|discriminate].
  destruct (ask_model w prompt out) as [[t|] out1]; [|discriminate].
  intros [= ->].
  destruct (build_prompt_keys _ _ _ _ Hp) as [valid Hvalid].
  rewrite (parse_answer_keys _ _ _ _ _ Hvalid).
  destruct (backfill_total w problem_type valid
              (keep_valid valid (tokenize (normalize text)))) as [extra Hb].
  rewrite Hb. eexists valid, _, out1. split; [done|]. split; [exact Hb | reflexivity].
Qed.

(** A run that returns a list either got a reply, or returns the empty
    list. *)
Lemma ai_calc_Ok_inv w problem_type body options out answers out' :
  ai_calc w problem_type body options out = (Ok answers, out') ->
  answers = [] \/
  exists text, reply_text w problem_type body options out = Some text.
Proof.
  unfold reply_text. rewrite ai_calc_unfold.
  destruct (build_prompt problem_type body options) as [prompt|];
    [|discriminate].
  destruct (ask_model w prompt out) as [[t|] out1].
  - intros _. right. by exists t.
  - intros [= <- _]. by left.
Qed.

(** ** Returned keys are option keys *)

(** C1: every key in the list that [ai_calc] returns is the key of one of
    the question's options, whether the key was kept by the token filter
    or appended by the multiple-choice backfill; this holds for every
    problem type, body, options list and behaviour of the world. *)
Theorem ai_calc_keys_are_option_keys
    w problem_type body options out answers out' :
  ai_calc w problem_type body options out = (Ok answers, out') ->
  forall k, k ∈ answers -> option_key options k.
Proof.
  intros Hrun k Hk.
  destruct (ai_calc_Ok_inv _ _ _ _ _ _ _ Hrun) as [-> | [text Htext]].
  { by apply elem_of_nil in Hk. }
  destruct (ai_calc_reply _ _ _ _ _ _ Htext)
    as (valid & answers' & out2 & Hvalid & Hfill & Hrun').
  rewrite Hrun in Hrun'. injection Hrun' as <- _.
  apply (option_keys_elem _ _ k Hvalid).
  set (kept := keep_valid valid (tokenize (normalize text))) in *.
  destruct (backfill_applies_dec problem_type valid kept) as [Hyes|Hno].
  - destruct (backfill_yes w _ _ _ Hyes) as (extra & Hfill' & _ & Hextra).
    rewrite Hfill in Hfill'. injection Hfill' as ->.
    apply elem_of_app in Hk as [Hk | Hk].
    + by apply keep_valid_elem in Hk as [_ ?].
    + apply list_elem_of_singleton in Hk as ->.
      by apply remaining_options_elem in Hextra as [? _].
  - rewrite (backfill_no w _ _ _ Hno) in Hfill. injection Hfill as <-.
    by apply keep_valid_elem in Hk as [_ ?].
Qed.

Lemma ai_calc_keys_are_option_keys_witness :
  ai_calc (replying "B,C" 0) 2 (u "q") options_multi []
  = (Ok [u "B"; u "C"], [u "未设置API密钥，请在配置中设置"]) /\
  option_key options_multi (u "C").
Proof.
  split; [reflexivity|].
  apply (ai_calc_keys_are_option_keys (replying "B,C" 0) 2 (u "q")
           options_multi [] [u "B"; u "C"]
           [u "未设置API密钥，请在配置中设置"]); [reflexivity|].
  right. left.
Defined.

(** ** Exceptions *)

(** C10: the prompt is built before the [try]: for an options list that
    contains a dict without the ['key'] or the ['value'] field, [ai_calc]
    raises [KeyError] to its caller, with nothing printed, instead of
    returning the empty list. *)
Theorem prompt_KeyError_escapes w problem_type body options out :
  (exists opt, opt ∈ options /\
     (opt !! u "key" = None \/ opt !! u "value" = None)) ->
  exists e, exn_cls e = KeyError /\
    ai_calc w problem_type body options out = (Raise e, out).
Proof.
  intros Hmiss. rewrite ai_calc_unfold. unfold build_prompt.
  destruct (render_options_missing options (u "") Hmiss) as (e & -> & Hcls).
  by exists e.
Qed.

Lemma prompt_KeyError_escapes_witness :
  exists e, exn_cls e = KeyError /\
    ai_calc (replying "A" 0) 1 (u "q")
      [mk_option (u "A") (u "yes"); {[ u "key" := u "B" ]}] []
    = (Raise e, []).
Proof.
  apply (prompt_KeyError_escapes (replying "A" 0) 1 (u "q")
           [mk_option (u "A") (u "yes"); {[ u "key" := u "B" ]}] []).
  exists {[ u "key" := u "B" ]}. split; [right; left | right; reflexivity].
Defined.

(** C5: when a step of the guarded region fails (the construction of the
    client, the network call, the reading of the reply or its parsing),
    [ai_calc] returns the empty list and prints one diagnostic line made
    from the exception; no exception reaches the caller. *)
Theorem guarded_failure_returns_empty
    w problem_type body options prompt out e out1 :
  build_prompt problem_type body options = Ok prompt ->
  step_fails w problem_type options prompt out e out1 ->
  ai_calc w problem_type body options out = (Ok [], out1 ++ [diagnostic e]).
Proof.
  intros Hp Hfail. rewrite ai_calc_unfold, Hp.
  destruct Hfail as [e out1 Hc | cl e out1 Hc Hcall | cl resp out1 Hc Hcall Hch
    | cl resp c cs out1 Hc Hcall Hch Hnone | text e out1 Hask Hparse].
  - by rewrite ask_model_unfold, Hc.
  - by rewrite ask_model_unfold, Hc, Hcall.
  - by rewrite ask_model_unfold, Hc, Hcall, Hch.
  - by rewrite ask_model_unfold, Hc, Hcall, Hch, Hnone.
  - by rewrite Hask, Hparse.
Qed.

Lemma guarded_failure_returns_empty_witness :
  ai_calc (mock_world (Raise connection_error) 0) 2 (u "q") options_multi []
  = (Ok [], [u "未设置API密钥，请在配置中设置";
             u "调用AI模型出错: Connection error."]).
Proof.
  apply (guarded_failure_returns_empty
           (mock_world (Raise connection_error) 0) 2 (u "q") options_multi
           (prompt_of (build_prompt 2 (u "q") options_multi)) []
           connection_error [u "未设置API密钥，请在配置中设置"]).
  - reflexivity.
  - apply (network_call_fails _ _ _ _ _ (Client (u "") (u "https://api.deepseek.com")));
      reflexivity.
Defined.

(** ** How many keys are returned *)

Lemma remaining_options_nil_answers valid_options :
  remaining_options valid_options [] = valid_options.
Proof.
  unfold remaining_options. induction valid_options as [|k ks IH]; [done|].
  rewrite filter_cons_True by apply not_elem_of_nil. by rewrite IH.
Qed.

(** A multiple-choice reply without any valid token yields exactly one
    key, the one drawn by the backfill. *)
Lemma multi_choice_no_valid_token w body options out text valid_options :
  reply_text w 2 body options out = Some text ->
  option_keys options = Ok valid_options ->
  2 <= length valid_options ->
  keep_valid valid_options (tokenize (normalize text)) = [] ->
  exists k out', ai_calc w 2 body options out = (Ok [k], out').
Proof.
  intros Htext Hvalid Hlen Hkept.
  destruct (ai_calc_reply _ _ _ _ _ _ Htext)
    as (valid & answers & out' & Hvalid' & Hfill & Hrun).
  rewrite Hvalid in Hvalid'. injection Hvalid' as <-.
  rewrite Hkept in Hfill.
  assert (backfill_applies 2 valid_options []) as Hyes.
  { unfold backfill_applies. rewrite remaining_options_nil_answers.
    repeat split; [simpl; lia | done |].
    destruct valid_options; [simpl in Hlen; lia | done]. }
  destruct (backfill_yes w _ _ _ Hyes) as (extra & Hfill' & _).
  rewrite Hfill in Hfill'. injection Hfill' as ->.
  by exists extra, out'.
Qed.

(** C2: on the multiple-choice question of the script's self-test (six
    options), a reply that names no option makes [ai_calc] return a list of
    exactly one key, whatever the random draw; the list is shorter than the
    two keys the claim promises. *)
Theorem multi_choice_reply_Z_returns_one_key draw body out :
  exists k out',
    ai_calc (replying "Z" draw) 2 body options_multi out = (Ok [k], out') /\
    length [k] < 2.
Proof.
  destruct (multi_choice_no_valid_token (replying "Z" draw) body options_multi
              out (u "Z") [u "A"; u "B"; u "C"; u "D"; u "E"; u "F"])
    as (k & out' & Hrun); [reflexivity | reflexivity | simpl; lia | reflexivity |].
  exists k, out'. split; [exact Hrun | simpl; lia].
Qed.

(** C3 as stated fails: a single-choice reply that lists two valid keys is
    returned in full. *)
Lemma single_choice_two_keys_counterexample :
  ~ (forall w problem_type body options out answers out',
        (problem_type = 1 \/ problem_type = 3)%Z ->
        ai_calc w problem_type body options out = (Ok answers, out') ->
        length answers <= 1).
Proof.
  intros H.
  specialize (H (replying "A,B" 0) 1%Z (u "q") options_single []
                [u "A"; u "B"] [u "未设置API密钥，请在配置中设置"]
                (or_introl eq_refl) eq_refl).
  simpl in H. lia.
Qed.

Lemma tokenize_no_comma answer_text :
  contains COMMA answer_text = false -> tokenize answer_text = [answer_text].
Proof. intros H. unfold tokenize. by rewrite H. Qed.

Lemma filter_at_most_one (P : str -> Prop) `{!forall k, Decision (P k)}
    (l : list str) :
  length (filter P l) <= 1 <->
  (forall i j x y, l !! i = Some x -> l !! j = Some y -> P x -> P y -> i = j).
Proof.
  induction l as [|a l IH].
  - split; [|intros _; simpl; lia].
    intros _ i j x y Hi. by rewrite lookup_nil in Hi.
  - rewrite filter_cons. destruct (decide (P a)) as [Ha|Hna].
    + cbn [length]. split.
      * intros Hlen.
        assert (filter P l = []) as Hnil.
        { destruct (filter P l); [done | simpl in Hlen; lia]. }
        assert (forall k y, l !! k = Some y -> P y -> False) as Hno.
        { intros k y Hk Hy. assert (y ∈ filter P l) as Hin.
          { apply list_elem_of_filter. split; [done|].
            eapply list_elem_of_lookup_2, Hk. }
          rewrite Hnil in Hin. by apply elem_of_nil in Hin. }
        intros [|i] [|j] x y Hi Hj Hx Hy; simpl in Hi, Hj;
          [done | exfalso; eauto | exfalso; eauto | exfalso; eauto].
      * intros Hone. assert (filter P l = []) as ->; [|simpl; lia].
        apply elem_of_nil_inv.
        intros y [Hy [k Hk]%list_elem_of_lookup_1]%list_elem_of_filter.
        assert (0 = S k) as Hk0 by (apply (Hone 0 (S k) a y); done). lia.
    + rewrite IH. split.
      * intros Hone [|i] [|j] x y Hi Hj Hx Hy; simpl in Hi, Hj.
        -- done.
        -- injection Hi as <-. contradiction.
        -- injection Hj as <-. contradiction.
        -- f_equal. by apply (Hone i j x y).
      * intros Hone i j x y Hi Hj Hx Hy.
        assert (S i = S j) as Hij by (apply (Hone (S i) (S j) x y); done).
        lia.
Qed.

(** C3 (amended): for a single-choice or poll question, a run without a
    reply returns the empty list, and a run where the model replies returns
    at most one key exactly when at most one token of the normalized reply
    is an option key. *)
Theorem single_choice_at_most_one_key
    w problem_type body options out answers out' :
  (problem_type = 1 \/ problem_type = 3)%Z ->
  ai_calc w problem_type body options out = (Ok answers, out') ->
  match reply_text w problem_type body options out with
  | None => answers = []
  | Some text =>
      length answers <= 1 <->
      at_most_one_valid_token options (tokenize (normalize text))
  end.
Proof.
  intros Htype Hrun.
  destruct (reply_text w problem_type body options out) as [text|] eqn:Htext.
  - destruct (ai_calc_reply _ _ _ _ _ _ Htext)
      as (valid & answers' & out2 & Hvalid & Hfill & Hrun').
    rewrite Hrun in Hrun'. injection Hrun' as <- _.
    rewrite backfill_no in Hfill.
    2:{ intros (-> & _). destruct Htype; discriminate. }
    injection Hfill as <-.
    unfold keep_valid. rewrite filter_at_most_one.
    unfold at_most_one_valid_token.
    split; intros H i j x y Hi Hj Hx Hy; apply (H i j x y); try done;
      by apply (option_keys_elem _ _ _ Hvalid).
  - destruct (ai_calc_Ok_inv _ _ _ _ _ _ _ Hrun) as [-> | [text Ht]];
      [done | congruence].
Qed.

Lemma single_choice_at_most_one_key_witness :
  ai_calc (replying "A," 0) 1 (u "q") options_single []
  = (Ok [u "A"], [u "未设置API密钥，请在配置中设置"]) /\
  (length [u "A"] <= 1 <->
   at_most_one_valid_token options_single (tokenize (normalize (u "A,")))).
Proof.
  split; [vm_compute; reflexivity|].
  exact (single_choice_at_most_one_key (replying "A," 0) 1 (u "q")
           options_single [] [u "A"] [u "未设置API密钥，请在配置中设置"]
           (or_introl eq_refl) eq_refl).
Defined.

(** ** Duplicates *)

(** C4 as stated fails: a key the reply repeats is returned twice. *)
Lemma duplicate_keys_counterexample :
  ~ (forall w problem_type body options out answers out',
        ai_calc w problem_type body options out = (Ok answers, out') ->
        NoDup answers).
Proof.
  intros H.
  specialize (H (replying "A,A" 0) 1%Z (u "q") options_single []
                [u "A"; u "A"] [u "未设置API密钥，请在配置中设置"] eq_refl).
  apply NoDup_cons in H as [Hnotin _]. apply Hnotin. left.
Qed.

Lemma NoDup_filter_at_most_once (P : str -> Prop) `{!forall k, Decision (P k)}
    (tokens : list str) :
  (forall k, P k -> at_most_once k tokens) -> NoDup (filter P tokens).
Proof.
  induction tokens as [|t tokens IH]; intros Honce.
  - rewrite filter_nil. constructor.
  - assert (NoDup (filter P tokens)) as Hrest.
    { apply IH. intros k Hk i j Hi Hj.
      assert (S i = S j) by (apply (Honce k Hk); done). lia. }
    rewrite filter_cons. destruct (decide (P t)) as [Ht|]; [|done].
    apply NoDup_cons. split; [|done].
    intros [_ [j Hj]%list_elem_of_lookup_1]%list_elem_of_filter.
    assert (0 = S j) by (apply (Honce t Ht); done). lia.
Qed.

(** C4 (amended): when no option key occurs more than once among the
    tokens of the normalized reply, the returned list has no duplicate
    keys; the backfilled key never repeats a kept key. *)
Theorem no_duplicates_unless_reply_repeats
    w problem_type body options out answers out' :
  ai_calc w problem_type body options out = (Ok answers, out') ->
  (forall text k,
      reply_text w problem_type body options out = Some text ->
      option_key options k ->
      at_most_once k (tokenize (normalize text))) ->
  NoDup answers.
Proof.
  intros Hrun Honce.
  destruct (ai_calc_Ok_inv _ _ _ _ _ _ _ Hrun) as [-> | [text Htext]].
  { constructor. }
  destruct (ai_calc_reply _ _ _ _ _ _ Htext)
    as (valid & answers' & out2 & Hvalid & Hfill & Hrun').
  rewrite Hrun in Hrun'. injection Hrun' as <- _.
  assert (NoDup (keep_valid valid (tokenize (normalize text)))) as Hkept.
  { apply NoDup_filter_at_most_once. intros k Hk.
    apply (Honce text k Htext). by apply (option_keys_elem _ _ k Hvalid). }
  set (kept := keep_valid valid (tokenize (normalize text))) in *.
  destruct (backfill_applies_dec problem_type valid kept) as [Hyes|Hno].
  - destruct (backfill_yes w _ _ _ Hyes) as (extra & Hfill' & _ & Hextra).
    rewrite Hfill in Hfill'. injection Hfill' as ->.
    apply remaining_options_elem in Hextra as [_ Hfresh].
    apply NoDup_app. split; [done|]. split; [|apply NoDup_singleton].
    intros k Hk ->%list_elem_of_singleton. done.
  - rewrite (backfill_no w _ _ _ Hno) in Hfill. by injection Hfill as <-.
Qed.

Lemma no_duplicates_unless_reply_repeats_witness :
  ai_calc (replying "A" 0) 2 (u "q") options_single []
  = (Ok [u "A"; u "B"], [u "未设置API密钥，请在配置中设置"]) /\
  NoDup [u "A"; u "B"].
Proof.
  split; [reflexivity|].
  apply (no_duplicates_unless_reply_repeats (replying "A" 0) 2 (u "q")
           options_single [] [u "A"; u "B"]
           [u "未设置API密钥，请在配置中设置"]); [reflexivity|].
  intros text k [= <-] _ [|i] [|j] Hi Hj;
    [reflexivity | discriminate Hj | discriminate Hi | discriminate Hi].
Defined.

(** ** The backfill rule *)

Lemma reply_text_with_draw w draw problem_type body options out :
  reply_text (with_draw w draw) problem_type body options out
  = reply_text w problem_type body options out.
Proof. reflexivity. Qed.

Lemma unused_key_remaining options valid_options kept :
  option_keys options = Ok valid_options ->
  forall k, k ∈ remaining_options valid_options kept <->
            option_key options k /\ k ∉ kept.
Proof.
  intros Hvalid k. rewrite remaining_options_elem.
  by rewrite (option_keys_elem _ _ k Hvalid).
Qed.

(** C6: in a run where the model replies, let [kept] be the valid keys
    left by the filter.  For a multiple-choice question with fewer than two
    kept keys and at least two options, if some option key is unused then
    [ai_calc] returns [kept] followed by exactly one unused option key, and
    every unused key is returned for some random draw; if no option key is
    unused nothing is appended; and nothing is appended when the question
    is not such a multiple-choice question, in particular for every other
    problem type. *)
Theorem backfill_rule w problem_type body options out text :
  reply_text w problem_type body options out = Some text ->
  exists valid_options out',
    option_keys options = Ok valid_options /\
    let kept := keep_valid valid_options (tokenize (normalize text)) in
    (problem_type = 2%Z -> length kept < 2 -> 2 <= length options ->
     (exists k, option_key options k /\ k ∉ kept) ->
     (exists extra, option_key options extra /\ (extra ∉ kept) /\
        ai_calc w problem_type body options out = (Ok (kept ++ [extra]), out'))
     /\
     (forall k, option_key options k -> k ∉ kept ->
        exists draw,
          ai_calc (with_draw w draw) problem_type body options out
          = (Ok (kept ++ [k]), out'))) /\
    ((forall k, option_key options k -> k ∈ kept) ->
     ai_calc w problem_type body options out = (Ok kept, out')) /\
    (~ (problem_type = 2%Z /\ length kept < 2 /\ 2 <= length options) ->
     ai_calc w problem_type body options out = (Ok kept, out')).
Proof.
  intros Htext.
  destruct (ai_calc_reply _ _ _ _ _ _ Htext)
    as (valid & answers & out' & Hvalid & Hfill & Hrun).
  exists valid, out'. split; [done|]. intros kept. fold kept in Hfill.
  pose proof (option_keys_length _ _ Hvalid) as Hlen.
  pose proof (unused_key_remaining _ _ kept Hvalid) as Hunused.
  split; [|split].
  - intros -> Hkept Hopts (k0 & Hk0 & Hfresh0).
    assert (backfill_applies 2 valid kept) as Hyes.
    { repeat split; [done | lia |].
      intros Hnil. assert (k0 ∈ remaining_options valid kept) as Hin.
      { by apply Hunused. }
      rewrite Hnil in Hin. by apply elem_of_nil in Hin. }
    split.
    + destruct (backfill_yes w _ _ _ Hyes) as (extra & Hfill' & _ & Hextra).
      rewrite Hfill in Hfill'. injection Hfill' as ->.
      apply Hunused in Hextra as [? ?]. by exists extra.
    + intros k Hk Hfresh.
      destruct (random_choice_any w (remaining_options valid kept) k)
        as [draw Hdraw]; [by apply Hunused|].
      exists draw.
      destruct (ai_calc_reply (with_draw w draw) 2 body options out text Htext)
        as (valid' & answers' & out2 & Hvalid' & Hfill' & Hrun').
      rewrite Hvalid in Hvalid'. injection Hvalid' as <-. fold kept in Hfill'.
      destruct (backfill_yes (with_draw w draw) _ _ _ Hyes)
        as (extra & Hfill'' & Hchoice & _).
      rewrite Hdraw in Hchoice. injection Hchoice as <-.
      rewrite Hfill' in Hfill''. injection Hfill'' as ->.
      rewrite Hrun'. f_equal.
      rewrite ai_calc_unfold in Hrun, Hrun'. unfold reply_text in Htext.
      destruct (build_prompt 2 body options) as [prompt|]; [|discriminate].
      change (ask_model (with_draw w draw) prompt out)
        with (ask_model w prompt out) in Hrun'.
      destruct (ask_model w prompt out) as [[t|] out1]; [|discriminate].
      injection Htext as ->.
      rewrite (parse_answer_keys w _ _ _ _ Hvalid) in Hrun.
      rewrite (parse_answer_keys (with_draw w draw) _ _ _ _ Hvalid) in Hrun'.
      fold kept in Hrun, Hrun'. rewrite Hfill in Hrun. rewrite Hfill' in Hrun'.
      congruence.
  - intros Hall. rewrite Hrun. f_equal. f_equal.
    rewrite backfill_no in Hfill; [congruence|].
    intros (_ & _ & _ & Hrem). apply Hrem, elem_of_nil_inv.
    intros k [Hk Hfresh]%Hunused. by apply Hfresh, Hall.
  - intros Hcond. rewrite Hrun. f_equal. f_equal.
    rewrite backfill_no in Hfill; [congruence|].
    intros (-> & ? & ? & _). apply Hcond. repeat split; [done | lia].
Qed.

Lemma backfill_rule_witness :
  exists valid_options out',
    option_keys options_single = Ok valid_options /\
    let kept := keep_valid valid_options (tokenize (normalize (u "B"))) in
    (2%Z = 2%Z -> length kept < 2 -> 2 <= length options_single ->
     (exists k, option_key options_single k /\ k ∉ kept) ->
     (exists extra, option_key options_single extra /\ (extra ∉ kept) /\
        ai_calc (replying "B" 0) 2 (u "q") options_single []
        = (Ok (kept ++ [extra]), out'))
     /\
     (forall k, option_key options_single k -> k ∉ kept ->
        exists draw,
          ai_calc (with_draw (replying "B" 0) draw) 2 (u "q") options_single []
          = (Ok (kept ++ [k]), out'))) /\
    ((forall k, option_key options_single k -> k ∈ kept) ->
     ai_calc (replying "B" 0) 2 (u "q") options_single [] = (Ok kept, out')) /\
    (~ (2%Z = 2%Z /\ length kept < 2 /\ 2 <= length options_single) ->
     ai_calc (replying "B" 0) 2 (u "q") options_single [] = (Ok kept, out')).
Proof.
  apply (backfill_rule (replying "B" 0) 2 (u "q") options_single [] (u "B")).
  reflexivity.
Defined.

(** ** Replies without a valid token *)

Lemma keep_valid_none valid_options tokens :
  (forall tok, tok ∈ tokens -> tok ∉ valid_options) ->
  keep_valid valid_options tokens = [].
Proof.
  intros Hnone. apply elem_of_nil_inv. intros tok [Htok Hin]%keep_valid_elem.
  by apply (Hnone tok).
Qed.

Lemma options_multi_keys :
  option_keys options_multi = Ok [u "A"; u "B"; u "C"; u "D"; u "E"; u "F"].
Proof. reflexivity. Qed.

(** C7 as stated fails: on a multiple-choice question with six options the
    reply "Z" has no valid token, yet the backfill makes the result
    non-empty. *)
Lemma no_valid_token_counterexample :
  ~ (forall w problem_type body options out text answers out',
        reply_text w problem_type body options out = Some text ->
        (forall tok, tok ∈ tokenize (normalize text) ->
                     ~ option_key options tok) ->
        ai_calc w problem_type body options out = (Ok answers, out') ->
        answers = []).
Proof.
  intros H.
  specialize (H (replying "Z" 0) 2%Z (u "q") options_multi [] (u "Z")
                [u "A"] [u "未设置API密钥，请在配置中设置"] eq_refl).
  discriminate H; [|reflexivity].
  intros tok Htok Hkey.
  apply (option_keys_elem _ _ tok options_multi_keys) in Hkey.
  change (tokenize (normalize (u "Z"))) with [u "Z"] in Htok.
  apply list_elem_of_singleton in Htok as ->.
  repeat (apply elem_of_cons in Hkey as [Hkey|Hkey]; [discriminate Hkey|]).
  by apply elem_of_nil in Hkey.
Qed.

(** C7 (amended): when no token of the normalized reply equals an option
    key, and the question is not a multiple-choice question with at least
    two options, [ai_calc] returns the empty list. *)
Theorem no_valid_token_returns_empty w problem_type body options out text :
  reply_text w problem_type body options out = Some text ->
  (forall tok, tok ∈ tokenize (normalize text) -> ~ option_key options tok) ->
  ~ (problem_type = 2%Z /\ 2 <= length options) ->
  exists out', ai_calc w problem_type body options out = (Ok [], out').
Proof.
  intros Htext Hnone Hcond.
  destruct (ai_calc_reply _ _ _ _ _ _ Htext)
    as (valid & answers & out' & Hvalid & Hfill & Hrun).
  exists out'. rewrite Hrun. f_equal. f_equal.
  rewrite keep_valid_none in Hfill.
  2:{ intros tok Htok Hin. apply (Hnone tok Htok).
      by apply (option_keys_elem _ _ tok Hvalid). }
  rewrite backfill_no in Hfill; [congruence|].
  intros (-> & _ & Hlen & _). apply Hcond. split; [done|].
  by rewrite <- (option_keys_length _ _ Hvalid).
Qed.

Lemma no_valid_token_returns_empty_witness :
  exists out',
    ai_calc (replying "Z" 0) 1 (u "q") options_single [] = (Ok [], out').
Proof.
  apply (no_valid_token_returns_empty (replying "Z" 0) 1 (u "q")
           options_single [] (u "Z")).
  - reflexivity.
  - intros tok Htok Hkey.
    apply (option_keys_elem options_single [u "A"; u "B"] tok eq_refl) in Hkey.
    change (tokenize (normalize (u "Z"))) with [u "Z"] in Htok.
    apply list_elem_of_singleton in Htok as ->.
    repeat (apply elem_of_cons in Hkey as [Hkey|Hkey]; [discriminate Hkey|]).
    by apply elem_of_nil in Hkey.
  - intros [Htype _]. discriminate Htype.
Defined.

(** ** The reply parser *)

Lemma split_no_sep sep s : contains sep s = false -> split sep s = [s].
Proof.
  unfold contains. induction s as [|c s IH]; [done|].
  cbn [existsb split]. intros [Hc Hs]%orb_false_elim.
  rewrite Hc. by rewrite (IH Hs).
Qed.

(** The test [',' in answer_text] changes nothing: splitting a text without
    comma yields the text itself. *)
Lemma tokenize_split answer_text :
  tokenize answer_text = split COMMA answer_text.
Proof.
  unfold tokenize. destruct (contains COMMA answer_text) eqn:Hc; [done|].
  by rewrite split_no_sep.
Qed.

Lemma replace_chain_one_pass s :
  replace FULL_SEMI [COMMA]
    (replace SEMICOLON [COMMA]
       (replace IDEO_COMMA [COMMA]
          (replace FULL_COMMA [COMMA] (replace SPACE [] s))))
  = flat_map unify_char s.
Proof.
  induction s as [|c s IH]; [done|].
  cbn [flat_map]. rewrite <- IH. unfold unify_char. cbn [replace].
  destruct (N.eqb_spec c SPACE) as [->|_]; [done|].
  cbn [replace].
  destruct (N.eqb_spec c FULL_COMMA) as [->|_]; [done|].
  cbn [replace].
  destruct (N.eqb_spec c IDEO_COMMA) as [->|_]; [done|].
  cbn [replace].
  destruct (N.eqb_spec c SEMICOLON) as [->|_]; [done|].
  cbn [replace].
  destruct (N.eqb_spec c FULL_SEMI) as [->|_]; done.
Qed.

Lemma normalize_one_pass text : normalize text = normalize_in_one_pass text.
Proof. apply replace_chain_one_pass. Qed.

(** C9: in a run where the model replies, the returned list is the list of
    those tokens of the normalized reply that are option keys, in the order
    of the reply, followed by at most one backfilled key at the end. *)
Theorem kept_tokens_in_reply_order
    w problem_type body options out text answers out' :
  reply_text w problem_type body options out = Some text ->
  ai_calc w problem_type body options out = (Ok answers, out') ->
  exists (valid_options kept extra : list str),
    (forall k, k ∈ valid_options <-> option_key options k) /\
    kept = filter (fun tok => tok ∈ valid_options) (tokenize (normalize text)) /\
    kept `sublist_of` tokenize (normalize text) /\
    answers = kept ++ extra /\
    length extra <= 1.
Proof.
  intros Htext Hrun.
  destruct (ai_calc_reply _ _ _ _ _ _ Htext)
    as (valid & answers' & out2 & Hvalid & Hfill & Hrun').
  rewrite Hrun in Hrun'. injection Hrun' as <- _.
  set (kept := keep_valid valid (tokenize (normalize text))) in *.
  assert (exists extra, answers = kept ++ extra /\ length extra <= 1)
    as (extra & -> & Hlen).
  { destruct (backfill_applies_dec problem_type valid kept) as [Hyes|Hno].
    - destruct (backfill_yes w _ _ _ Hyes) as (x & Hfill' & _).
      exists [x]. split; [congruence | simpl; lia].
    - rewrite (backfill_no w _ _ _ Hno) in Hfill. exists [].
      rewrite app_nil_r. split; [congruence | simpl; lia]. }
  exists valid, kept, extra. split; [|split; [|split; [|split]]]; try done.
  - intros k. apply (option_keys_elem _ _ k Hvalid).
  - apply sublist_filter.
Qed.

Lemma kept_tokens_in_reply_order_witness :
  exists (valid_options kept extra : list str),
    (forall k, k ∈ valid_options <-> option_key options_multi k) /\
    kept = filter (fun tok => tok ∈ valid_options)
             (tokenize (normalize (u "E；zz, A"))) /\
    kept `sublist_of` tokenize (normalize (u "E；zz, A")) /\
    [u "E"; u "A"] = kept ++ extra /\
    length extra <= 1.
Proof.
  apply (kept_tokens_in_reply_order (replying "E；zz, A" 0) 2 (u "q")
           options_multi [] (u "E；zz, A") [u "E"; u "A"]
           [u "未设置API密钥，请在配置中设置"]); reflexivity.
Defined.

(** * Further properties of the script *)

(** ** [get_ai_config] *)

Lemma get_ai_config_run w out :
  exists ai_config lines,
    get_ai_config w out = (Ok ai_config, out ++ lines) /\
    length lines <= 1 /\
    (forall config, load_config w = Ok config ->
       lines = [] /\
       ai_config = default default_ai_config (config !! u "ai_config")) /\
    (forall e, load_config w = Raise e -> ai_config = default_ai_config).
Proof.
  unfold get_ai_config, try_except, bind, lift, print, ret.
  destruct (load_config w) as [config|e].
  - exists (default default_ai_config (config !! u "ai_config")), [].
    rewrite app_nil_r. repeat split; try congruence; try (simpl; lia).
    by destruct (config !! u "ai_config").
  - eexists default_ai_config, [_]. repeat split; try congruence.
    simpl; lia.
Qed.

(** X1: [get_ai_config] never raises.  It returns the stored ["ai_config"]
    entry when the file can be read and has one, printing nothing;
    otherwise it returns the default configuration, and prints one line
    exactly when the file could not be read. *)
Theorem get_ai_config_falls_back w out :
  exists ai_config lines,
    get_ai_config w out = (Ok ai_config, out ++ lines) /\
    match load_config w with
    | Raise e => ai_config = default_ai_config /\ lines = [config_error_line e]
    | Ok config =>
        lines = [] /\
        ai_config = default default_ai_config (config !! u "ai_config")
    end.
Proof.
  unfold get_ai_config, try_except, bind, lift, print, ret, config_error_line.
  destruct (load_config w) as [config|e].
  - exists (default default_ai_config (config !! u "ai_config")), [].
    rewrite app_nil_r. split; [|done].
    by destruct (config !! u "ai_config").
  - by exists default_ai_config, [config_error_line e].
Qed.

(** ** [get_openai_client] *)

Lemma get_openai_client_unfold w out :
  exists ai_config lines,
    get_ai_config w out = (Ok ai_config, out ++ lines) /\
    length lines <= 1 /\
    let api_key := dict_get ai_config (u "api_key") (u "") in
    let base_url :=
      dict_get ai_config (u "base_url") (u "https://api.deepseek.com") in
    get_openai_client w out =
    (OpenAI w api_key base_url,
     match api_key with
     | [] => (out ++ lines) ++ [missing_key_warning]
     | _ :: _ => out ++ lines
     end).
Proof.
  destruct (get_ai_config_run w out) as (cfg & lines & Hcfg & Hlen & _).
  exists cfg, lines. split; [done|]. split; [done|].
  intros api_key base_url. subst api_key base_url.
  unfold get_openai_client, bind. rewrite Hcfg. cbv zeta.
  unfold missing_key_warning.
  destruct (dict_get cfg (u "api_key") (u "")); reflexivity.
Qed.

(** X2: for a configuration whose ["ai_config"] entry, when there is one,
    is an object of strings, the only way [get_openai_client] raises is
    that the [OpenAI] constructor raises: an unreadable file, a missing
    entry or missing fields never make it fail. *)
Theorem get_openai_client_raises_only_from_constructor w out e out' :
  get_openai_client w out = (Raise e, out') ->
  exists api_key base_url, OpenAI w api_key base_url = Raise e.
Proof.
  destruct (get_openai_client_unfold w out) as (cfg & lines & _ & _ & Hrun).
  cbn zeta in Hrun. rewrite Hrun. intros [= Hraise _]. by eexists _, _.
Qed.

Lemma get_openai_client_raises_only_from_constructor_witness :
  exists api_key base_url,
    OpenAI (world_without_client connection_error) api_key base_url
    = Raise connection_error.
Proof.
  apply (get_openai_client_raises_only_from_constructor
           (world_without_client connection_error) [] connection_error
           [missing_key_warning]).
  vm_compute. reflexivity.
Defined.

(** X3: when the configuration cannot be read or has no ["ai_config"]
    entry, the client is still requested, with the empty API key and the
    default base URL, and the missing-key warning is the last line
    printed. *)
Theorem get_openai_client_without_credentials w out :
  (forall config, load_config w = Ok config -> config !! u "ai_config" = None) ->
  exists lines,
    get_openai_client w out =
    (OpenAI w (u "") (u "https://api.deepseek.com"),
     out ++ lines ++ [missing_key_warning]).
Proof.
  intros Hnone.
  destruct (get_openai_client_unfold w out) as (cfg & lines & Hcfg & _ & Hrun).
  destruct (get_ai_config_run w out)
    as (cfg' & lines' & Hcfg' & _ & Hok & Hfail).
  rewrite Hcfg in Hcfg'. injection Hcfg' as <- Hlines.
  assert (cfg = default_ai_config) as ->.
  { destruct (load_config w) as [config|e] eqn:Hload.
    - destruct (Hok config eq_refl) as [_ ->].
      by rewrite (Hnone config eq_refl).
    - by apply (Hfail e). }
  exists lines. rewrite Hrun. by rewrite <- app_assoc.
Qed.

Lemma get_openai_client_without_credentials_witness :
  exists lines,
    get_openai_client
      (world_with_config (Raise connection_error) (Ok None) 0) [] =
    (OpenAI (world_with_config (Raise connection_error) (Ok None) 0)
       (u "") (u "https://api.deepseek.com"),
     [] ++ lines ++ [missing_key_warning]).
Proof.
  apply (get_openai_client_without_credentials
           (world_with_config (Raise connection_error) (Ok None) 0) []).
  intros config Hload. discriminate Hload.
Defined.

(** X4: with a non-empty API key configured, [get_openai_client] prints
    nothing and builds the client from that key; the base URL is the
    configured one, or the default URL when the entry has none. *)
Theorem get_openai_client_configured (w : world) (out : console)
    (config : gmap str (gmap str str)) (ai_config : gmap str str)
    (api_key : str) :
  load_config w = Ok config ->
  config !! u "ai_config" = Some ai_config ->
  ai_config !! u "api_key" = Some api_key ->
  api_key <> [] ->
  get_openai_client w out =
  (OpenAI w api_key
     (default (u "https://api.deepseek.com") (ai_config !! u "base_url")),
   out).
Proof.
  intros Hload Hentry Hkey Hne.
  destruct (get_openai_client_unfold w out) as (cfg & lines & Hcfg & _ & Hrun).
  destruct (get_ai_config_run w out) as (cfg' & lines' & Hcfg' & _ & Hok & _).
  rewrite Hcfg in Hcfg'. injection Hcfg' as <- Hlines.
  destruct (Hok config Hload) as [-> Hc]. rewrite Hentry in Hc.
  change (cfg = ai_config) in Hc. subst cfg.
  apply app_inv_head in Hlines. subst lines. rewrite app_nil_r in Hrun.
  cbn zeta in Hrun. rewrite Hrun. unfold dict_get. rewrite Hkey.
  destruct api_key; [done|].
  by destruct (ai_config !! u "base_url").
Qed.

Lemma get_openai_client_configured_witness :
  get_openai_client
    (world_with_config
       (Ok (config_with {[ u "api_key" := u "sk-1" ]})) (Ok None) 0) [] =
  (Ok (Client (u "sk-1") (u "https://api.deepseek.com")), []).
Proof.
  etrans.
  - apply (get_openai_client_configured
             (world_with_config
                (Ok (config_with {[ u "api_key" := u "sk-1" ]})) (Ok None) 0)
             [] (config_with {[ u "api_key" := u "sk-1" ]})
             {[ u "api_key" := u "sk-1" ]} (u "sk-1"));
      [vm_compute; reflexivity | vm_compute; reflexivity
      | vm_compute; reflexivity | discriminate].
  - vm_compute. reflexivity.
Defined.

(** ** The prompt *)

Lemma render_options_Raise options acc e :
  render_options options acc = Raise e ->
  exn_cls e = KeyError /\
  exists opt, opt ∈ options /\
    (opt !! u "key" = None \/ opt !! u "value" = None).
Proof.
  revert acc. induction options as [|opt rest IH]; intros acc H; [discriminate|].
  cbn [render_options] in H.
  destruct (getitem opt (u "key")) as [k|e1] eqn:Hk.
  2:{ injection H as ->. apply getitem_Raise in Hk as [Hnone Hcls].
      split; [done|]. exists opt. split; [left | by left]. }
  destruct (getitem opt (u "value")) as [v|e2] eqn:Hv.
  2:{ injection H as ->. apply getitem_Raise in Hv as [Hnone Hcls].
      split; [done|]. exists opt. split; [left | by right]. }
  destruct (IH _ H) as (Hcls & o & Ho & Hmiss).
  split; [done|]. exists o. split; [by right | done].
Qed.

(** X5: for a list of option dicts, a [KeyError] that leaves [ai_calc]
    always comes from an option that lacks its ['key'] or ['value'] field,
    and is raised before anything is printed; a [KeyError] inside the
    guarded region never reaches the caller. *)
Theorem escaping_KeyError_has_malformed_option
    w problem_type body options out e out' :
  ai_calc w problem_type body options out = (Raise e, out') ->
  exn_cls e = KeyError ->
  out' = out /\
  exists opt, opt ∈ options /\
    (opt !! u "key" = None \/ opt !! u "value" = None).
Proof.
  rewrite ai_calc_unfold. unfold build_prompt.
  destruct (render_options options (u "")) as [text|e1] eqn:Hrender.
  - destruct (ask_model w _ out) as [[t|e2] out1]; [|discriminate].
    destruct (parse_answer w problem_type options t); discriminate.
  - intros [= <- <-] _.
    destruct (render_options_Raise _ _ _ Hrender) as [_ Hmiss]. done.
Qed.

Lemma escaping_KeyError_has_malformed_option_witness :
  ([] : console) = [] /\
  exists opt, opt ∈ [ ({[ u "value" := u "yes" ]} : gmap str str) ] /\
    (opt !! u "key" = None \/ opt !! u "value" = None).
Proof.
  apply (escaping_KeyError_has_malformed_option (replying "A" 0) 1 (u "q")
           [ {[ u "value" := u "yes" ]} ] []
           (Exn KeyError (u "'key'")) []).
  - vm_compute. reflexivity.
  - reflexivity.
Defined.

Lemma option_lines_cons k v kvs :
  flat_map option_line ((k, v) :: kvs)
  = (k ++ u ": " ++ v ++ u "
") ++ flat_map option_line kvs.
Proof. reflexivity. Qed.

(** X6: the loop over the options succeeds exactly when every option has
    both fields, and then the text it returns is the text it started from
    followed by one "key: value" line per option, in the order of the
    options. *)
Theorem render_options_lines options acc text :
  render_options options acc = Ok text <->
  exists kvs, Forall2 fields_of options kvs /\
              text = acc ++ flat_map option_line kvs.
Proof.
  revert acc text. induction options as [|opt rest IH]; intros acc text.
  - split.
    + intros [= <-]. exists []. split; [constructor|]. by rewrite app_nil_r.
    + intros (kvs & Hkvs & ->). apply Forall2_nil_inv_l in Hkvs as ->.
      cbn [render_options flat_map]. by rewrite app_nil_r.
  - cbn [render_options]. split.
    + destruct (getitem opt (u "key")) as [k|] eqn:Hk; [|discriminate].
      destruct (getitem opt (u "value")) as [v|] eqn:Hv; [|discriminate].
      intros (kvs & Hkvs & ->)%IH. exists ((k, v) :: kvs). split.
      * constructor; [|done]. split; by apply getitem_Ok.
      * rewrite option_lines_cons. by rewrite !app_assoc.
    + intros (kvs & Hkvs & ->).
      apply Forall2_cons_inv_l in Hkvs as ([k v] & kvs' & [Hk Hv] & Hrest & ->).
      cbn [fst snd] in Hk, Hv.
      rewrite (proj2 (getitem_Ok _ _ _) Hk), (proj2 (getitem_Ok _ _ _) Hv).
      apply IH. exists kvs'. split; [done|].
      rewrite option_lines_cons. by rewrite !app_assoc.
Qed.

(** ** The console *)

Lemma get_openai_client_console w out :
  exists r lines,
    get_openai_client w out = (r, out ++ lines) /\ length lines <= 2.
Proof.
  destruct (get_openai_client_unfold w out) as (cfg & lines & _ & Hlen & Hrun).
  cbn zeta in Hrun. rewrite Hrun.
  destruct (dict_get cfg (u "api_key") (u "")).
  - eexists _, (lines ++ [missing_key_warning]). rewrite app_assoc.
    split; [done|]. rewrite length_app. simpl. lia.
  - eexists _, lines. split; [done | lia].
Qed.

Lemma ask_model_console w prompt out :
  exists r lines,
    ask_model w prompt out = (r, out ++ lines) /\ length lines <= 2.
Proof.
  destruct (get_openai_client_console w out) as (r & lines & Hc & Hlen).
  rewrite ask_model_unfold, Hc.
  destruct r as [cl|e]; [|by eexists _, lines].
  destruct (chat_completions_create w cl (request_for prompt)) as [resp|e];
    [|by eexists _, lines].
  destruct (choices resp) as [|c cs]; [by eexists _, lines|].
  destruct (message_content (choice_message c)); by eexists _, lines.
Qed.

(** X7: [ai_calc] only ever appends to the console, and appends at most
    three lines in one call (the configuration error, the missing-key
    warning and the model error). *)
Theorem ai_calc_console_grows w problem_type body options out :
  exists r lines,
    ai_calc w problem_type body options out = (r, out ++ lines) /\
    length lines <= 3.
Proof.
  rewrite ai_calc_unfold.
  destruct (build_prompt problem_type body options) as [prompt|e].
  2:{ exists (Raise e), []. rewrite app_nil_r. split; [done | simpl; lia]. }
  destruct (ask_model_console w prompt out) as (r & lines & -> & Hlen).
  destruct r as [text|e].
  - destruct (parse_answer w problem_type options text) as [answers|e].
    + exists (Ok answers), lines. split; [done | lia].
    + exists (Ok []), (lines ++ [diagnostic e]). rewrite app_assoc.
      split; [done|]. rewrite length_app. simpl. lia.
  - exists (Ok []), (lines ++ [diagnostic e]). rewrite app_assoc.
    split; [done|]. rewrite length_app. simpl. lia.
Qed.

(** ** The random generator *)

(** X8: for a problem type other than 2 the outcome of [ai_calc] does not
    depend on the random generator. *)
Theorem ai_calc_ignores_random_unless_multi
    w draw problem_type body options out :
  problem_type <> 2%Z ->
  ai_calc (with_draw w draw) problem_type body options out
  = ai_calc w problem_type body options out.
Proof.
  intros Htype. rewrite !ai_calc_unfold.
  destruct (build_prompt problem_type body options) as [prompt|e]; [|done].
  change (ask_model (with_draw w draw) prompt out)
    with (ask_model w prompt out).
  destruct (ask_model w prompt out) as [[text|e] out1]; [|done].
  assert (parse_answer (with_draw w draw) problem_type options text
          = parse_answer w problem_type options text) as ->; [|done].
  unfold parse_answer. destruct (option_keys options) as [valid|]; [|done].
  unfold backfill. by destruct (Z.eqb_spec problem_type 2).
Qed.

Lemma ai_calc_ignores_random_unless_multi_witness :
  ai_calc (with_draw (replying "Z" 0) 5) 1 (u "q") options_single []
  = ai_calc (replying "Z" 0) 1 (u "q") options_single [].
Proof.
  apply (ai_calc_ignores_random_unless_multi (replying "Z" 0) 5 1 (u "q")
           options_single []).
  discriminate.
Defined.

(** ** Stripping *)

Lemma lstrip_head s c : head (lstrip s) = Some c -> isspace c = false.
Proof.
  induction s as [|a s IH]; [discriminate|].
  cbn [lstrip]. destruct (isspace a) eqn:Ha; [done|].
  intros [= <-]. done.
Qed.

Lemma lstrip_id s :
  (forall c, head s = Some c -> isspace c = false) -> lstrip s = s.
Proof.
  destruct s as [|a s]; [done|]. intros H. cbn [lstrip].
  by rewrite (H a eq_refl).
Qed.

Lemma lstrip_snoc s c :
  isspace c = false -> exists s', lstrip (s ++ [c]) = s' ++ [c].
Proof.
  intros Hc. induction s as [|a s IH].
  - exists []. cbn [app lstrip]. by rewrite Hc.
  - cbn [app lstrip]. destruct (isspace a); [done|]. by exists (a :: s).
Qed.

Lemma head_rev (s : str) : head (rev s) = last s.
Proof.
  induction s as [|a s _] using rev_ind; [done|].
  rewrite rev_app_distr, last_snoc. done.
Qed.

Lemma last_rev (s : str) : last (rev s) = head s.
Proof. by rewrite <- head_rev, rev_involutive. Qed.

Lemma rstrip_last s c : last (rstrip s) = Some c -> isspace c = false.
Proof. unfold rstrip. rewrite last_rev. apply lstrip_head. Qed.

Lemma rstrip_id s :
  (forall c, last s = Some c -> isspace c = false) -> rstrip s = s.
Proof.
  intros H. unfold rstrip. rewrite lstrip_id; [apply rev_involutive|].
  intros c. rewrite head_rev. apply H.
Qed.

Lemma rstrip_head s c :
  head s = Some c -> isspace c = false -> head (rstrip s) = Some c.
Proof.
  destruct s as [|a s]; [discriminate|]. intros [= ->] Hc.
  unfold rstrip. cbn [rev].
  destruct (lstrip_snoc (rev s) c Hc) as [s' ->].
  by rewrite rev_app_distr.
Qed.

Lemma strip_head s c : head (strip s) = Some c -> isspace c = false.
Proof.
  unfold strip. destruct (lstrip s) as [|a t] eqn:Ht; [discriminate|].
  assert (isspace a = false) as Ha by (apply (lstrip_head s); by rewrite Ht).
  rewrite (rstrip_head (a :: t) a eq_refl Ha). by intros [= <-].
Qed.

Lemma strip_last s c : last (strip s) = Some c -> isspace c = false.
Proof. apply rstrip_last. Qed.

Lemma strip_id s :
  (forall c, head s = Some c -> isspace c = false) ->
  (forall c, last s = Some c -> isspace c = false) ->
  strip s = s.
Proof.
  intros Hhead Hlast. unfold strip. rewrite (lstrip_id s Hhead).
  by apply rstrip_id.
Qed.

(** ** Normalization *)

Lemma unify_char_cases c :
  (c = SPACE /\ unify_char c = []) \/
  (rewritten_char c /\ c <> SPACE /\ unify_char c = [COMMA]) \/
  (~ rewritten_char c /\ unify_char c = [c]).
Proof.
  unfold unify_char, rewritten_char.
  destruct (N.eqb_spec c SPACE) as [->|?]; [by left|]. right.
  destruct (N.eqb_spec c FULL_COMMA) as [->|?]; [left; cbn [orb]; tauto|].
  destruct (N.eqb_spec c IDEO_COMMA) as [->|?]; [left; cbn [orb]; tauto|].
  destruct (N.eqb_spec c SEMICOLON) as [->|?]; [left; cbn [orb]; tauto|].
  destruct (N.eqb_spec c FULL_SEMI) as [->|?]; [left; cbn [orb]; tauto|].
  right. cbn [orb]. tauto.
Qed.

Lemma comma_not_rewritten : ~ rewritten_char COMMA.
Proof. unfold rewritten_char. intros [H|[H|[H|[H|H]]]]; discriminate H. Qed.

Lemma unify_char_of_nonspace c :
  isspace c = false -> exists x, unify_char c = [x] /\ isspace x = false.
Proof.
  intros Hc.
  destruct (unify_char_cases c) as [[-> _]|[(_ & _ & H)|[_ H]]].
  - discriminate Hc.
  - by exists COMMA.
  - by exists c.
Qed.

Lemma one_pass_clean s : Forall (fun c => ~ rewritten_char c) (flat_map unify_char s).
Proof.
  induction s as [|c s IH]; [constructor|].
  cbn [flat_map]. apply Forall_app. split; [|done].
  destruct (unify_char_cases c) as [[_ ->]|[(_ & _ & ->)|[? ->]]].
  - constructor.
  - repeat constructor. apply comma_not_rewritten.
  - by repeat constructor.
Qed.

Lemma one_pass_fixed s :
  Forall (fun c => ~ rewritten_char c) s -> flat_map unify_char s = s.
Proof.
  induction 1 as [|c s Hc _ IH]; [done|].
  cbn [flat_map]. rewrite IH.
  destruct (unify_char_cases c) as [[-> _]|[(? & _ & _)|[_ ->]]]; [|done..].
  exfalso. apply Hc. by left.
Qed.

Lemma normalize_no_rewritten text :
  Forall (fun c => ~ rewritten_char c) (normalize text).
Proof. rewrite normalize_one_pass. apply one_pass_clean. Qed.

Lemma normalize_head text c :
  head (normalize text) = Some c -> isspace c = false.
Proof.
  rewrite normalize_one_pass. unfold normalize_in_one_pass.
  destruct (strip text) as [|a s] eqn:Hs; [discriminate|].
  assert (isspace a = false) as Ha by (apply (strip_head text); by rewrite Hs).
  cbn [flat_map]. destruct (unify_char_of_nonspace a Ha) as (x & -> & Hx).
  by intros [= <-].
Qed.

Lemma normalize_last text c :
  last (normalize text) = Some c -> isspace c = false.
Proof.
  rewrite normalize_one_pass. unfold normalize_in_one_pass.
  destruct (strip text) as [|a s _] eqn:Hs using rev_ind; [discriminate|].
  assert (isspace a = false) as Ha.
  { apply (strip_last text). by rewrite Hs, last_snoc. }
  rewrite flat_map_app. cbn [flat_map]. rewrite app_nil_r.
  destruct (unify_char_of_nonspace a Ha) as (x & -> & Hx).
  rewrite last_snoc. by intros [= <-].
Qed.

(** X9: the normalized reply contains no space and none of the four
    comma-like characters that are rewritten to [','], and it neither
    starts nor ends with a whitespace character. *)
Theorem normalize_clean text :
  Forall (fun c => ~ rewritten_char c) (normalize text) /\
  (forall c, head (normalize text) = Some c -> isspace c = false) /\
  (forall c, last (normalize text) = Some c -> isspace c = false).
Proof.
  split; [apply normalize_no_rewritten|]. split.
  - intros c. apply normalize_head.
  - intros c. apply normalize_last.
Qed.

(** X10: normalizing is idempotent: a normalized reply is left unchanged
    by a second normalization. *)
Theorem normalize_idempotent text : normalize (normalize text) = normalize text.
Proof.
  rewrite (normalize_one_pass (normalize text)). unfold normalize_in_one_pass.
  rewrite strip_id.
  - apply one_pass_fixed, normalize_no_rewritten.
  - intros c. apply normalize_head.
  - intros c. apply normalize_last.
Qed.

(** ** Tokens *)

Lemma split_nonempty sep s : split sep s <> [].
Proof.
  destruct s as [|c s]; [done|]. cbn [split].
  destruct (c =? sep)%N; [done|]. by destruct (split sep s).
Qed.

Lemma split_length sep s :
  length (split sep s) = S (length (filter (fun c => c = sep) s)).
Proof.
  unfold str in *. induction s as [|c s IH]; [done|].
  cbn [split]. rewrite filter_cons.
  destruct (N.eqb_spec c sep) as [->|Hne].
  - rewrite decide_True by done. cbn [length]. by rewrite IH.
  - rewrite decide_False by done.
    destruct (split sep s) as [|w ws] eqn:Hsplit;
      [by destruct (split_nonempty sep s)|].
    by rewrite <- IH.
Qed.

Lemma split_pieces_without_sep sep s :
  Forall (fun piece => sep ∉ piece) (split sep s).
Proof.
  induction s as [|c s IH].
  - repeat constructor. apply not_elem_of_nil.
  - cbn [split]. destruct (N.eqb_spec c sep) as [->|Hne].
    + constructor; [apply not_elem_of_nil | done].
    + destruct (split sep s) as [|w ws] eqn:Hsplit;
        [by destruct (split_nonempty sep s)|].
      apply Forall_cons in IH as [Hw Hws]. constructor; [|done].
      intros [?|?]%elem_of_cons; [congruence | done].
Qed.

Lemma join_split sep s : join sep (split sep s) = s.
Proof.
  induction s as [|c s IH]; [done|].
  cbn [split]. destruct (N.eqb_spec c sep) as [->|Hne].
  - destruct (split sep s) as [|w ws] eqn:Hsplit;
      [by destruct (split_nonempty sep s)|].
    cbn [join app]. cbn [join] in IH. by rewrite IH.
  - destruct (split sep s) as [|w ws] eqn:Hsplit;
      [by destruct (split_nonempty sep s)|].
    cbn [join] in *. destruct ws; cbn [app]; by rewrite IH.
Qed.

(** X11: the reply is cut into one more token than it has commas (so
    there is always at least one token, possibly empty), and no token
    contains a comma. *)
Theorem tokenize_pieces answer_text :
  length (tokenize answer_text)
  = S (length (filter (fun c => c = COMMA) answer_text)) /\
  Forall (fun tok => COMMA ∉ tok) (tokenize answer_text).
Proof.
  rewrite tokenize_split. split.
  - apply split_length.
  - apply split_pieces_without_sep.
Qed.

(** X12: nothing of the normalized reply is lost by the cut: joining the
    tokens with [','] gives the text back. *)
Theorem join_tokenize answer_text :
  join COMMA (tokenize answer_text) = answer_text.
Proof. rewrite tokenize_split. apply join_split. Qed.

(** ** Bounds on the number of returned keys *)

(** X13: in a run where the model replies, [ai_calc] returns at most as
    many keys as the normalized reply has tokens when the problem type is
    not 2, and at most two keys or as many keys as tokens when it is 2. *)
Theorem answers_at_most_tokens
    w problem_type body options out text answers out' :
  reply_text w problem_type body options out = Some text ->
  ai_calc w problem_type body options out = (Ok answers, out') ->
  (problem_type <> 2%Z ->
   length answers <= length (tokenize (normalize text))) /\
  length answers <= Nat.max 2 (length (tokenize (normalize text))).
Proof.
  intros Htext Hrun.
  destruct (ai_calc_reply _ _ _ _ _ _ Htext)
    as (valid & answers' & out2 & Hvalid & Hfill & Hrun').
  rewrite Hrun in Hrun'. injection Hrun' as <- _.
  set (tokens := tokenize (normalize text)) in *.
  pose proof (length_filter (fun tok => tok ∈ valid) tokens) as Hkept.
  fold (keep_valid valid tokens) in Hkept.
  destruct (backfill_applies_dec problem_type valid (keep_valid valid tokens))
    as [Hyes|Hno].
  - destruct (backfill_yes w _ _ _ Hyes) as (extra & Hfill' & _).
    rewrite Hfill in Hfill'. injection Hfill' as ->.
    destruct Hyes as (-> & Hlt & _). rewrite length_app. cbn [length].
    split; [done | lia].
  - rewrite (backfill_no w _ _ _ Hno) in Hfill. injection Hfill as <-.
    split; [lia | lia].
Qed.

Lemma answers_at_most_tokens_witness :
  (2%Z <> 2%Z ->
   length [u "E"; u "A"] <= length (tokenize (normalize (u "E；zz, A")))) /\
  length [u "E"; u "A"]
  <= Nat.max 2 (length (tokenize (normalize (u "E；zz, A")))).
Proof.
  apply (answers_at_most_tokens (replying "E；zz, A" 0) 2 (u "q")
           options_multi [] (u "E；zz, A") [u "E"; u "A"]
           [u "未设置API密钥，请在配置中设置"]);
    vm_compute; reflexivity.
Defined.

Lemma two_distinct_leave_one (valid : list str) (k : str) :
  NoDup valid -> 2 <= length valid -> exists k', k' ∈ valid /\ k' <> k.
Proof.
  destruct valid as [|a [|b rest]]; [simpl; lia | simpl; lia |].
  intros [Ha _]%NoDup_cons _.
  destruct (decide (a = k)) as [->|Hne].
  - exists b. split; [right; left|]. intros ->. apply Ha. left.
  - exists a. split; [left | done].
Qed.

(** X14: for a multiple-choice question with at least two options whose
    keys are pairwise distinct, a run where the model replies never returns
    the empty list, and returns at least two keys as soon as one token of
    the reply is an option key. *)
Theorem multi_choice_lower_bound
    w body options out text valid_options answers out' :
  option_keys options = Ok valid_options ->
  NoDup valid_options ->
  2 <= length options ->
  reply_text w 2 body options out = Some text ->
  ai_calc w 2 body options out = (Ok answers, out') ->
  1 <= length answers /\
  ((exists tok, tok ∈ tokenize (normalize text) /\ option_key options tok) ->
   2 <= length answers).
Proof.
  intros Hvalid Hnodup Hlen Htext Hrun.
  destruct (ai_calc_reply _ _ _ _ _ _ Htext)
    as (valid & answers' & out2 & Hvalid' & Hfill & Hrun').
  rewrite Hrun in Hrun'. injection Hrun' as <- _.
  rewrite Hvalid in Hvalid'. injection Hvalid' as <-.
  rewrite <- (option_keys_length _ _ Hvalid) in Hlen.
  set (kept := keep_valid valid_options (tokenize (normalize text))) in *.
  assert ((exists tok, tok ∈ tokenize (normalize text) /\ option_key options tok)
          -> 1 <= length kept) as Hsome.
  { intros (tok & Htok & Hkey).
    assert (tok ∈ kept) as Hin.
    { apply keep_valid_elem. split; [done|].
      by apply (option_keys_elem _ _ tok Hvalid). }
    destruct kept; [by apply elem_of_nil in Hin | simpl; lia]. }
  destruct (decide (length kept < 2)) as [Hshort|Hlong].
  - assert (backfill_applies 2 valid_options kept) as Hyes.
    { repeat split; [done..|]. intros Hnil.
      destruct kept as [|k [|k2 kept']]; [| |simpl in Hshort; lia].
      - rewrite remaining_options_nil_answers in Hnil. subst valid_options.
        simpl in Hlen. lia.
      - destruct (two_distinct_leave_one valid_options k Hnodup Hlen)
          as (k' & Hk' & Hne).
        assert (k' ∈ remaining_options valid_options [k]) as Hin.
        { apply remaining_options_elem. split; [done|].
          by intros ->%list_elem_of_singleton. }
        rewrite Hnil in Hin. by apply elem_of_nil in Hin. }
    destruct (backfill_yes w _ _ _ Hyes) as (extra & Hfill' & _).
    rewrite Hfill in Hfill'. injection Hfill' as ->.
    rewrite length_app. cbn [length]. split; [lia|].
    intros Hex. specialize (Hsome Hex). lia.
  - rewrite backfill_no in Hfill by (intros (_ & ? & _); lia).
    injection Hfill as <-. split; [lia | intros _; lia].
Qed.

Lemma multi_choice_lower_bound_witness :
  1 <= length [u "B"; u "A"] /\
  ((exists tok, tok ∈ tokenize (normalize (u "B")) /\
                option_key options_single tok) ->
   2 <= length [u "B"; u "A"]).
Proof.
  apply (multi_choice_lower_bound (replying "B" 0) (u "q") options_single []
           (u "B") [u "A"; u "B"] [u "B"; u "A"]
           [u "未设置API密钥，请在配置中设置"]).
  - vm_compute. reflexivity.
  - apply NoDup_cons. split.
    + intros Hin%list_elem_of_singleton. discriminate Hin.
    + apply NoDup_singleton.
  - simpl. lia.
  - vm_compute. reflexivity.
  - vm_compute. reflexivity.
Defined.

(** ** Quiet success and blank replies *)

(** X15: when the model replies, [ai_calc] prints no model-error line: the
    console it leaves is the one [get_openai_client] left. *)
Theorem reply_prints_no_diagnostic w problem_type body options out text :
  reply_text w problem_type body options out = Some text ->
  (ai_calc w problem_type body options out).2 = (get_openai_client w out).2.
Proof.
  intros Htext.
  destruct (ai_calc_reply _ _ _ _ _ _ Htext)
    as (valid & answers & out' & Hvalid & Hfill & Hrun).
  rewrite ai_calc_unfold in Hrun. unfold reply_text in Htext.
  rewrite ai_calc_unfold.
  destruct (build_prompt problem_type body options) as [prompt|];
    [|discriminate].
  rewrite ask_model_unfold in *.
  destruct (get_openai_client w out) as [[cl|e] out1]; [|discriminate].
  destruct (chat_completions_create w cl (request_for prompt)) as [resp|];
    [|discriminate].
  destruct (choices resp) as [|c cs]; [discriminate|].
  destruct (message_content (choice_message c)) as [t|]; [|discriminate].
  injection Htext as ->.
  rewrite (parse_answer_keys _ _ _ _ _ Hvalid), Hfill. done.
Qed.

Lemma reply_prints_no_diagnostic_witness :
  (ai_calc (replying "Z" 0) 1 (u "q") options_single []).2
  = (get_openai_client (replying "Z" 0) []).2.
Proof.
  apply (reply_prints_no_diagnostic (replying "Z" 0) 1 (u "q") options_single
           [] (u "Z")).
  vm_compute. reflexivity.
Defined.

Lemma lstrip_blank s : Forall (fun c => isspace c = true) s -> lstrip s = [].
Proof.
  induction 1 as [|c s Hc _ IH]; [done|]. cbn [lstrip]. by rewrite Hc.
Qed.

(** X16: a reply made only of whitespace (in particular the empty reply)
    is normalized to the empty text and cut into the single empty token. *)
Theorem blank_reply_single_empty_token text :
  Forall (fun c => isspace c = true) text ->
  normalize text = [] /\ tokenize (normalize text) = [[]].
Proof.
  intros Hblank.
  assert (normalize text = []) as ->; [|done].
  unfold normalize, strip. by rewrite (lstrip_blank _ Hblank).
Qed.

Lemma blank_reply_single_empty_token_witness :
  normalize (u " 
  ") = [] /\ tokenize (normalize (u " 
  ")) = [[]].
Proof.
  apply (blank_reply_single_empty_token (u " 
  ")).
  repeat constructor.
Defined.

(** ** The reply parser against its description *)

Lemma lstrip_decomp s :
  exists pre, s = pre ++ lstrip s /\ Forall (fun c => isspace c = true) pre.
Proof.
  induction s as [|a s (pre & Hs & Hpre)].
  - by exists [].
  - cbn [lstrip]. destruct (isspace a) eqn:Ha.
    + exists (a :: pre). split; [cbn [app]; by rewrite <- Hs | by constructor].
    + by exists [].
Qed.

Lemma rstrip_decomp s :
  exists post, s = rstrip s ++ post /\ Forall (fun c => isspace c = true) post.
Proof.
  destruct (lstrip_decomp (rev s)) as (pre & Hs & Hpre).
  exists (rev pre). split.
  - unfold rstrip. rewrite <- rev_app_distr, <- Hs. by rewrite rev_involutive.
  - by apply Forall_rev.
Qed.

(** [strip] meets the description of stripping. *)
Lemma strip_stripped_of text : stripped_of text (strip text).
Proof.
  destruct (lstrip_decomp text) as (pre & Hpre & Hws_pre).
  destruct (rstrip_decomp (lstrip text)) as (post & Hpost & Hws_post).
  exists pre, post. split; [|split; [done|split; [done|split]]].
  - unfold strip. by rewrite <- Hpost.
  - apply strip_head.
  - apply strip_last.
Qed.

(** [tokenize] after [normalize] meets the description of splitting the
    text in which spaces are dropped and comma-like characters unified. *)
Lemma tokenize_split_at_commas text :
  split_at_commas (flat_map unify_char (strip text))
    (tokenize (normalize text)).
Proof.
  rewrite normalize_one_pass, tokenize_split. unfold normalize_in_one_pass.
  split; [apply split_nonempty|]. split.
  - apply split_pieces_without_sep.
  - apply join_split.
Qed.

(** C8: in every run where the model replies, the list [ai_calc] returns
    is obtained as follows: the reply is stripped of its leading and
    trailing whitespace, spaces are dropped and each of the four comma-like
    characters becomes [','], the text is cut at the commas, and exactly
    the tokens that are option keys are kept, in order (followed by at most
    one backfilled key, and by none unless the problem type is 2).  With
    the six options A-F, problem type 2 and reply "B,C" the result is
    ["B","C"]; with the options A and B, problem type 1 and reply "A" the
    result is ["A"]; and a reply with a tab, spaces, all four comma-like
    characters and a final newline around B, C, D, E, F yields those five
    keys. *)
Theorem reply_parser_normalizes_and_filters :
  (forall w problem_type body options out text answers out',
      reply_text w problem_type body options out = Some text ->
      ai_calc w problem_type body options out = (Ok answers, out') ->
      exists (core : str) (tokens valid_options extra : list str),
        stripped_of text core /\
        split_at_commas (flat_map unify_char core) tokens /\
        (forall k, k ∈ valid_options <-> option_key options k) /\
        answers = filter (fun tok => tok ∈ valid_options) tokens ++ extra /\
        length extra <= 1 /\
        (problem_type <> 2%Z -> extra = [])) /\
  (forall w body out,
      reply_text w 2 body options_multi out = Some (u "B,C") ->
      exists out',
        ai_calc w 2 body options_multi out = (Ok [u "B"; u "C"], out')) /\
  (forall w body out,
      reply_text w 1 body options_single out = Some (u "A") ->
      exists out', ai_calc w 1 body options_single out = (Ok [u "A"], out')) /\
  (forall w body out,
      reply_text w 2 body options_multi out = Some messy_reply ->
      exists out',
        ai_calc w 2 body options_multi out
        = (Ok [u "B"; u "C"; u "D"; u "E"; u "F"], out')).
Proof.
  split; [|split; [|split]].
  - intros w problem_type body options out text answers out' Htext Hrun.
    destruct (ai_calc_reply _ _ _ _ _ _ Htext)
      as (valid & answers' & out2 & Hvalid & Hfill & Hrun').
    rewrite Hrun in Hrun'. injection Hrun' as <- _.
    set (kept := keep_valid valid (tokenize (normalize text))) in *.
    assert (exists extra, answers = kept ++ extra /\ length extra <= 1 /\
                          (problem_type <> 2%Z -> extra = []))
      as (extra & -> & Hlen & Htype).
    { destruct (backfill_applies_dec problem_type valid kept) as [Hyes|Hno].
      - destruct (backfill_yes w _ _ _ Hyes) as (x & Hfill' & _).
        exists [x]. split; [congruence|]. split; [simpl; lia|].
        destruct Hyes as (-> & _). done.
      - rewrite (backfill_no w _ _ _ Hno) in Hfill. exists [].
        rewrite app_nil_r. split; [congruence|]. split; [simpl; lia | done]. }
    exists (strip text), (tokenize (normalize text)), valid, extra.
    split; [apply strip_stripped_of|].
    split; [apply tokenize_split_at_commas|].
    split; [intros k; apply (option_keys_elem _ _ k Hvalid)|]. done.
  - intros w body out Htext.
    destruct (ai_calc_reply _ _ _ _ _ _ Htext)
      as (valid & answers & out' & Hvalid & Hfill & Hrun).
    rewrite options_multi_keys in Hvalid. injection Hvalid as <-.
    vm_compute in Hfill. injection Hfill as <-. by exists out'.
  - intros w body out Htext.
    destruct (ai_calc_reply _ _ _ _ _ _ Htext)
      as (valid & answers & out' & Hvalid & Hfill & Hrun).
    vm_compute in Hvalid. injection Hvalid as <-.
    vm_compute in Hfill. injection Hfill as <-. by exists out'.
  - intros w body out Htext.
    destruct (ai_calc_reply _ _ _ _ _ _ Htext)
      as (valid & answers & out' & Hvalid & Hfill & Hrun).
    rewrite options_multi_keys in Hvalid. injection Hvalid as <-.
    vm_compute in Hfill. injection Hfill as <-. by exists out'.
Qed.

Lemma reply_parser_normalizes_and_filters_witness :
  (exists out',
     ai_calc (replying "B,C" 4) 2 (u "q") options_multi []
     = (Ok [u "B"; u "C"], out')) /\
  (exists out',
     ai_calc (replying "A" 4) 1 (u "q") options_single []
     = (Ok [u "A"], out')) /\
  (exists out',
     ai_calc (mock_world (Ok (Some messy_reply)) 4) 2 (u "q") options_multi []
     = (Ok [u "B"; u "C"; u "D"; u "E"; u "F"], out')) /\
  (exists (core : str) (tokens valid_options extra : list str),
     stripped_of messy_reply core /\
     split_at_commas (flat_map unify_char core) tokens /\
     (forall k, k ∈ valid_options <-> option_key options_multi k) /\
     [u "B"; u "C"; u "D"; u "E"; u "F"]
     = filter (fun tok => tok ∈ valid_options) tokens ++ extra /\
     length extra <= 1 /\
     (2%Z <> 2%Z -> extra = [])).
Proof.
  destruct reply_parser_normalizes_and_filters
    as (Hgeneral & Hmulti & Hsingle & Hmessy).
  split; [|split; [|split]].
  - apply (Hmulti (replying "B,C" 4) (u "q") []). vm_compute. reflexivity.
  - apply (Hsingle (replying "A" 4) (u "q") []). vm_compute. reflexivity.
  - apply (Hmessy (mock_world (Ok (Some messy_reply)) 4) (u "q") []).
    vm_compute. reflexivity.
  - apply (Hgeneral (mock_world (Ok (Some messy_reply)) 4) 2%Z (u "q")
             options_multi [] messy_reply
             [u "B"; u "C"; u "D"; u "E"; u "F"]
             [u "未设置API密钥，请在配置中设置"]);
      vm_compute; reflexivity.
Defined.
